(** * sport-websockets: request validation and relational schema

    A shallow embedding of [src/validation/matches.js] (the four Zod
    schemas guarding the match routes) and of [src/db/schema.js] (the two
    Drizzle tables), together with the part of the JavaScript runtime and
    of the Zod parsing pipeline those files rely on.

    Conventions.
    - JavaScript numbers are modelled by [number]: NaN, the two infinities
      and finite values carried as rationals.  Negative zero is identified
      with zero (no check in the sources tells them apart).
    - JavaScript strings are modelled by [string]; a character stands for
      one code unit below 256.
    - Objects are key/value lists read with [get]; a missing key reads as
      [VUndefined], as property access does.
    - The date-time pattern of [z.iso.datetime()] and the runtime's
      [Date.parse] are parameters of [createMatchSchema]; the general
      statements hold for all of them, and [Reference] supplies the pair
      used on concrete requests.
    - The storage operations and the routes are not among the sources;
      they are modelled from sections 4.2 and 4.3 of the spec over the
      tables the sources declare.
    - A [jsonb] payload is written as its JSON text and read back with
      the keys of its objects in the order of the store; the runtime's
      [JSON.parse] is a parameter of the read. *)

From Stdlib Require Import ZArith QArith Bool List String Ascii Lia.
Import ListNotations.
Local Open Scope string_scope.
Local Open Scope list_scope.
Local Open Scope Z_scope.
Set Warnings "-register-all".

(** ** JavaScript values *)

Module JS.

Inductive number : Type :=
| NaN
| Infinity (negative : bool)
| Fin (q : Q).

Inductive value : Type :=
| VUndefined
| VNull
| VBool (b : bool)
| VNum (n : number)
| VStr (s : string)
| VArr (items : list value)
| VObj (fields : list (string * value)).

Definition num (z : Z) : number := Fin (inject_Z z).

(** Property read [o[key]]: the first binding of [key], [undefined] when
    there is none or when [o] is not an object. *)
Fixpoint lookup {A : Type} (key : string) (fields : list (string * A)) : option A :=
  match fields with
  | [] => None
  | (k, v) :: rest => if String.eqb key k then Some v else lookup key rest
  end.

Definition get (key : string) (o : value) : value :=
  match o with
  | VObj fields => match lookup key fields with Some v => v | None => VUndefined end
  | _ => VUndefined
  end.

(** [key in o] *)
Definition has (key : string) (o : value) : bool :=
  match o with
  | VObj fields => match lookup key fields with Some _ => true | None => false end
  | _ => false
  end.

(** Property write [o[key] = v]: replaces the binding of [key] or adds
    one after the existing keys. *)
Fixpoint update {A : Type} (key : string) (v : A) (fields : list (string * A))
  : list (string * A) :=
  match fields with
  | [] => [(key, v)]
  | (k, w) :: rest =>
      if String.eqb key k then (k, v) :: rest else (k, w) :: update key v rest
  end.

Definition set (key : string) (v : value) (o : value) : value :=
  match o with
  | VObj fields => VObj (update key v fields)
  | _ => o
  end.

Definition is_undefined (v : value) : bool :=
  match v with VUndefined => true | _ => false end.

(** *** Numbers *)

Definition Number_isNaN (n : number) : bool :=
  match n with NaN => true | _ => false end.

Definition Number_MAX_SAFE_INTEGER : Z := 2 ^ 53 - 1.
Definition Number_MIN_SAFE_INTEGER : Z := - (2 ^ 53 - 1).

Definition Q_is_int (q : Q) : bool := (Qnum q mod Zpos (Qden q) =? 0).
Definition Q_floor (q : Q) : Z := Qnum q / Zpos (Qden q).

Definition Qltb (x y : Q) : bool :=
  (Qnum x * Zpos (Qden y) <? Qnum y * Zpos (Qden x)).
Definition Qleb (x y : Q) : bool :=
  (Qnum x * Zpos (Qden y) <=? Qnum y * Zpos (Qden x)).

(** [Number.isInteger] and [Number.isSafeInteger] on a number. *)
Definition Number_isInteger (n : number) : bool :=
  match n with Fin q => Q_is_int q | _ => false end.

Definition Number_isSafeInteger (n : number) : bool :=
  match n with
  | Fin q => Q_is_int q
             && (Number_MIN_SAFE_INTEGER <=? Q_floor q)
             && (Q_floor q <=? Number_MAX_SAFE_INTEGER)
  | _ => false
  end.

(** The integer a number denotes, when it denotes one. *)
Definition to_int (n : number) : option Z :=
  match n with
  | Fin q => if Q_is_int q then Some (Q_floor q) else None
  | _ => None
  end.

(** The relational operators [<] and [<=] on numbers: false as soon as
    one side is NaN. *)
Definition num_lt (x y : number) : bool :=
  match x, y with
  | NaN, _ | _, NaN => false
  | Infinity true, Infinity true => false
  | Infinity true, _ => true
  | _, Infinity true => false
  | Infinity false, _ => false
  | _, Infinity false => true
  | Fin a, Fin b => Qltb a b
  end.

Definition num_le (x y : number) : bool :=
  match x, y with
  | NaN, _ | _, NaN => false
  | Infinity true, _ => true
  | _, Infinity true => false
  | _, Infinity false => true
  | Infinity false, _ => false
  | Fin a, Fin b => Qleb a b
  end.

Definition num_gt (x y : number) : bool := num_lt y x.
Definition num_ge (x y : number) : bool := num_le y x.

(** *** Rounding to a double

    [StringToNumber] rounds the exact decimal value of a literal to the
    nearest double, ties to even, overflowing to an infinity. *)

Definition round_half_even (n d : Z) : Z :=
  let q := n / d in
  match (2 * (n mod d)) ?= d with
  | Lt => q
  | Gt => q + 1
  | Eq => if Z.even q then q else q + 1
  end.

(** [double_of_pos n d] is the double nearest to [n / d], for [0 < n] and
    [0 < d]. *)
Definition double_of_pos (n d : Z) : number :=
  let e0 := Z.log2 n - Z.log2 d in
  let above := if 0 <=? e0 then d * 2 ^ e0 <=? n else d <=? n * 2 ^ (- e0) in
  let e := if above then e0 else e0 - 1 in
  let k := Z.max (e - 52) (-1074) in
  if 0 <=? k then
    let m := round_half_even n (d * 2 ^ k) in
    if 2 ^ 1024 <=? m * 2 ^ k then Infinity false else Fin (inject_Z (m * 2 ^ k))
  else
    let m := round_half_even (n * 2 ^ (- k)) d in
    Fin (Qred (Qmake m (Z.to_pos (2 ^ (- k))))).

Definition negate (n : number) : number :=
  match n with
  | NaN => NaN
  | Infinity s => Infinity (negb s)
  | Fin q => Fin (Qopp q)
  end.

(** The double nearest to [m * 10 ^ e], for [0 <= m]. *)
Definition double_of_decimal (m e : Z) : number :=
  if m =? 0 then Fin 0
  else if 0 <=? e then double_of_pos (m * 10 ^ e) 1
  else double_of_pos m (10 ^ (- e)).

(** *** StringToNumber (ECMAScript 7.1.4.1.1) *)

Definition code (c : ascii) : Z := Z.of_N (N_of_ascii c).

(** WhiteSpace and LineTerminator code units below 256. *)
Definition is_StrWhiteSpaceChar (c : ascii) : bool :=
  let n := code c in
  ((9 <=? n) && (n <=? 13)) || (n =? 32) || (n =? 160).

Fixpoint trim_start (s : list ascii) : list ascii :=
  match s with
  | c :: rest => if is_StrWhiteSpaceChar c then trim_start rest else s
  | [] => []
  end.

Definition trim (s : list ascii) : list ascii :=
  rev (trim_start (rev (trim_start s))).

Definition decimal_digit (c : ascii) : option Z :=
  let n := code c in
  if (48 <=? n) && (n <=? 57) then Some (n - 48) else None.

Definition hex_digit (c : ascii) : option Z :=
  let n := code c in
  if (48 <=? n) && (n <=? 57) then Some (n - 48)
  else if (97 <=? n) && (n <=? 102) then Some (n - 87)
  else if (65 <=? n) && (n <=? 70) then Some (n - 55)
  else None.

Definition octal_digit (c : ascii) : option Z :=
  let n := code c in
  if (48 <=? n) && (n <=? 55) then Some (n - 48) else None.

Definition binary_digit (c : ascii) : option Z :=
  let n := code c in
  if (48 <=? n) && (n <=? 49) then Some (n - 48) else None.

(** Reads the longest run of digits in front of [s]: the value read so
    far, how many digits it took, and the rest of the input. *)
Fixpoint read_digits (base : Z) (digit : ascii -> option Z) (s : list ascii)
         (acc : Z) (count : Z) : Z * Z * list ascii :=
  match s with
  | c :: rest =>
      match digit c with
      | Some d => read_digits base digit rest (acc * base + d) (count + 1)
      | None => (acc, count, s)
      end
  | [] => (acc, count, [])
  end.

(** A whole string of digits in the given base, at least one. *)
Definition NonDecimalInteger (base : Z) (digit : ascii -> option Z)
           (s : list ascii) : number :=
  match read_digits base digit s 0 0 with
  | (n, count, []) =>
      if 0 <? count then (if n =? 0 then Fin 0 else double_of_pos n 1) else NaN
  | _ => NaN
  end.

(** ExponentPart after its [e]: an optional sign and at least one digit,
    up to the end of the input. *)
Definition ExponentPart (s : list ascii) : option Z :=
  let '(negative, s1) :=
    match s with
    | "+"%char :: t => (false, t)
    | "-"%char :: t => (true, t)
    | _ => (false, s)
    end in
  match read_digits 10 decimal_digit s1 0 0 with
  | (e, count, []) =>
      if 0 <? count then Some (if negative then - e else e) else None
  | _ => None
  end.

(** StrUnsignedDecimalLiteral other than [Infinity]. *)
Definition UnsignedDecimal (s : list ascii) : number :=
  let '(ip, ni, s1) := read_digits 10 decimal_digit s 0 0 in
  let '(fp, nf, s2) :=
    match s1 with
    | "."%char :: t => read_digits 10 decimal_digit t 0 0
    | _ => (0, 0, s1)
    end in
  if ni + nf =? 0 then NaN
  else
    let m := ip * 10 ^ nf + fp in
    match s2 with
    | [] => double_of_decimal m (- nf)
    | c :: t =>
        if (code c =? 101) || (code c =? 69) then
          match ExponentPart t with
          | Some e => double_of_decimal m (e - nf)
          | None => NaN
          end
        else NaN
    end.

Definition Infinity_literal : list ascii := list_ascii_of_string "Infinity".

Definition list_ascii_eqb (a b : list ascii) : bool :=
  String.eqb (string_of_list_ascii a) (string_of_list_ascii b).

Definition StrUnsignedDecimalLiteral (s : list ascii) : number :=
  if list_ascii_eqb s Infinity_literal then Infinity false else UnsignedDecimal s.

Definition StringToNumber (str : string) : number :=
  match trim (list_ascii_of_string str) with
  | [] => Fin 0
  | "+"%char :: t => StrUnsignedDecimalLiteral t
  | "-"%char :: t => negate (StrUnsignedDecimalLiteral t)
  | "0"%char :: c :: t =>
      let n := code c in
      if (n =? 120) || (n =? 88) then NonDecimalInteger 16 hex_digit t
      else if (n =? 111) || (n =? 79) then NonDecimalInteger 8 octal_digit t
      else if (n =? 98) || (n =? 66) then NonDecimalInteger 2 binary_digit t
      else StrUnsignedDecimalLiteral ("0"%char :: c :: t)
  | s => StrUnsignedDecimalLiteral s
  end.

(** *** ToNumber: the conversion [Number(v)] performs

    An array converts through its string form, the comma-joined string
    forms of its elements: the empty array reads as the empty string, a
    one-element array as that element's string form (empty for
    [undefined] and [null]; a number prints to a literal that reads back
    as itself), and a longer array contains a comma, which no numeric
    literal does.  A plain object prints as [[object Object]]. *)
Fixpoint ToNumber (v : value) : number :=
  match v with
  | VUndefined => NaN
  | VNull => Fin 0
  | VBool b => if b then Fin 1 else Fin 0
  | VNum n => n
  | VStr s => StringToNumber s
  | VArr [] => Fin 0
  | VArr [x] =>
      match x with
      | VUndefined | VNull => Fin 0
      | VBool _ => NaN
      | _ => ToNumber x
      end
  | VArr _ => NaN
  | VObj _ => NaN
  end.

(** *** JSON

    What is left of a value that has gone through its JSON text, that
    is [JSON.parse(JSON.stringify(v))].  [JSON.stringify] writes
    [undefined] as nothing at all ([None]), leaves a property out whose
    value it writes as nothing, writes [null] for such an item of an
    array and for a number that is not finite, and writes a finite
    number with digits that read back as that number. *)

Module JSON.

Fixpoint clone (v : value) : option value :=
  match v with
  | VUndefined => None
  | VNull => Some VNull
  | VBool b => Some (VBool b)
  | VNum (Fin q) => Some (VNum (Fin q))
  | VNum _ => Some VNull
  | VStr s => Some (VStr s)
  | VArr items =>
      Some (VArr (map (fun x => match clone x with Some j => j | None => VNull end)
                      items))
  | VObj fields =>
      Some (VObj (flat_map (fun kv => let '(k, x) := kv in
                                      match clone x with
                                      | Some j => [(k, j)]
                                      | None => []
                                      end)
                           fields))
  end.


End JSON.

End JS.

Import JS.

(** ** The Zod parsing pipeline

    What [z.object], [z.string], [z.coerce.number], [z.iso.datetime] and
    the checks chained on them do when a schema is run (Zod 4, the version
    that provides [z.iso]). *)

Module Zod.

Inductive issue_code : Type :=
| invalid_type (expected : string)
| too_small (minimum : Z)
| too_big (maximum : Z)
| invalid_format (format : string)
| custom.

(** An issue while the parse is running.  [continue] is the flag Zod
    consults to decide whether later checks still run; an issue raised by
    a type test carries none, which reads as false. *)
Record raw_issue : Type := mk_raw {
  code : issue_code;
  path : list string;
  message : option string;      (* [None]: the locale's default text *)
  continue : bool
}.

(** An issue as a [ZodError] lists it. *)
Record issue : Type := mk_issue {
  i_code : issue_code;
  i_path : list string;
  i_message : option string
}.

Definition finalizeIssue (iss : raw_issue) : issue :=
  {| i_code := code iss; i_path := path iss; i_message := message iss |}.

Record payload : Type := mk_payload {
  p_value : value;
  p_issues : list raw_issue
}.

(** A check attached to a schema: [when] overrides the default rule that
    a check is skipped once the payload is aborted. *)
Record check : Type := mk_check {
  when : option (payload -> bool);
  run_check : value -> list raw_issue
}.

Record ZodType : Type := mk_type {
  parse : value -> payload;
  checks : list check
}.

(** [util.aborted]: some issue does not have [continue === true]. *)
Definition aborted (iss : list raw_issue) : bool :=
  existsb (fun i => negb (continue i)) iss.

Fixpoint runChecks (p : payload) (chs : list check) : payload :=
  match chs with
  | [] => p
  | ch :: rest =>
      let shouldRun :=
        match when ch with
        | Some w => w p
        | None => negb (aborted (p_issues p))
        end in
      if shouldRun
      then runChecks {| p_value := p_value p;
                        p_issues := p_issues p ++ run_check ch (p_value p) |} rest
      else runChecks p rest
  end.

(** [schema._zod.run] *)
Definition run (t : ZodType) (input : value) : payload :=
  runChecks (parse t input) (checks t).

Definition with_check (ch : check) (t : ZodType) : ZodType :=
  {| parse := parse t; checks := checks t ++ [ch] |}.

Inductive SafeParseResult : Type :=
| Success (data : value)
| Failure (error : list issue).

Definition safeParse (t : ZodType) (input : value) : SafeParseResult :=
  let p := run t input in
  match p_issues p with
  | [] => Success (p_value p)
  | iss => Failure (map finalizeIssue iss)
  end.

Definition success (r : SafeParseResult) : bool :=
  match r with Success _ => true | Failure _ => false end.

Definition error_of (r : SafeParseResult) : list issue :=
  match r with Success _ => [] | Failure e => e end.

(** Method chaining: [t |> f] reads [t.f()]. *)
Notation "t |> f" := (f t) (at level 45, left associativity, only parsing).

(** *** z.string() *)

Definition z_string : ZodType :=
  {| parse := fun input =>
       match input with
       | VStr _ => {| p_value := input; p_issues := [] |}
       | _ => {| p_value := input;
                 p_issues := [mk_raw (invalid_type "string") [] None false] |}
       end;
     checks := [] |}.

(** [input.length] *)
Definition length_of (v : value) : value :=
  match v with
  | VStr s => VNum (num (Z.of_nat (String.length s)))
  | VArr items => VNum (num (Z.of_nat (List.length items)))
  | VObj _ => get "length" v
  | _ => VUndefined
  end.

Module ZodString.

(** [.min(minimum, { message })]: the length check carries its own
    [when]: it runs on any value that has a length. *)
Definition min (minimum : Z) (msg : string) : ZodType -> ZodType :=
  with_check
    {| when := Some (fun p => negb (is_undefined (length_of (p_value p))));
       run_check := fun input =>
         if num_ge (ToNumber (length_of input)) (num minimum) then []
         else [mk_raw (too_small minimum) [] (Some msg) true] |}.

End ZodString.

(** *** z.iso.datetime()

    A string schema whose first check tests the library's date-time
    pattern; the pattern itself is a parameter. *)
Definition z_iso_datetime (pattern : string -> bool) : ZodType :=
  {| parse := parse z_string;
     checks :=
       [ {| when := None;
            run_check := fun input =>
              match input with
              | VStr s => if pattern s then []
                          else [mk_raw (invalid_format "datetime") [] None true]
              | _ => []
              end |} ] |}.

(** *** z.coerce.number()

    The input goes through [Number(...)] first; what comes out has to be
    a number that is neither NaN nor infinite. *)

Definition z_coerce_number : ZodType :=
  {| parse := fun input =>
       let n := ToNumber input in
       match n with
       | Fin _ => {| p_value := VNum n; p_issues := [] |}
       | _ => {| p_value := VNum n;
                 p_issues := [mk_raw (invalid_type "number") [] None false] |}
       end;
     checks := [] |}.

Module ZodNumber.

(** [.int()]: the [safeint] number format. *)
Definition int : ZodType -> ZodType :=
  with_check
    {| when := None;
       run_check := fun input =>
         let n := match input with VNum n => n | _ => NaN end in
         if negb (Number_isInteger n) then
           [mk_raw (invalid_type "int") [] None false]
         else if negb (Number_isSafeInteger n) then
           if num_gt n (num 0)
           then [mk_raw (too_big Number_MAX_SAFE_INTEGER) [] None true]
           else [mk_raw (too_small Number_MIN_SAFE_INTEGER) [] None true]
         else [] |}.

Definition gt (bound : Z) : ZodType -> ZodType :=
  with_check
    {| when := None;
       run_check := fun input =>
         if num_gt (ToNumber input) (num bound) then []
         else [mk_raw (too_small bound) [] None true] |}.

Definition gte (bound : Z) : ZodType -> ZodType :=
  with_check
    {| when := None;
       run_check := fun input =>
         if num_ge (ToNumber input) (num bound) then []
         else [mk_raw (too_small bound) [] None true] |}.

Definition lte (bound : Z) : ZodType -> ZodType :=
  with_check
    {| when := None;
       run_check := fun input =>
         if num_le (ToNumber input) (num bound) then []
         else [mk_raw (too_big bound) [] None true] |}.

Definition positive : ZodType -> ZodType := gt 0.
Definition min : Z -> ZodType -> ZodType := gte.
Definition max : Z -> ZodType -> ZodType := lte.

End ZodNumber.

(** *** .optional() *)

Definition optional (inner : ZodType) : ZodType :=
  {| parse := fun input =>
       if is_undefined input then {| p_value := input; p_issues := [] |}
       else run inner input;
     checks := [] |}.

(** *** z.object(shape) *)

Definition prefixIssue (key : string) (iss : raw_issue) : raw_issue :=
  {| code := code iss; path := key :: path iss;
     message := message iss; continue := continue iss |}.

Definition handlePropertyResult (result final : payload) (key : string)
           (input : value) : payload :=
  {| p_value :=
       if is_undefined (p_value result)
       then (if has key input then set key VUndefined (p_value final)
             else p_value final)
       else set key (p_value result) (p_value final);
     p_issues := p_issues final ++ map (prefixIssue key) (p_issues result) |}.

Definition z_object (shape : list (string * ZodType)) : ZodType :=
  {| parse := fun input =>
       match input with
       | VObj _ =>
           fold_left
             (fun final '(key, el) =>
                handlePropertyResult (run el (get key input)) final key input)
             shape
             {| p_value := VObj []; p_issues := [] |}
       | _ => {| p_value := input;
                 p_issues := [mk_raw (invalid_type "object") [] None false] |}
       end;
     checks := [] |}.

(** *** .superRefine(fn)

    [fn] is given the parsed value; the issues it hands to [ctx.addIssue]
    are appended in order. *)
Definition addIssue (c : issue_code) (msg : string) : raw_issue :=
  {| code := c; path := []; message := Some msg; continue := true |}.

Definition superRefine (fn : value -> list raw_issue) : ZodType -> ZodType :=
  with_check {| when := None; run_check := fn |}.

End Zod.

Import Zod.

(** ** src/validation/matches.js *)

Definition MATCH_STATUS : list (string * string) :=
  [ ("SCHEDULED", "scheduled"); ("LIVE", "live"); ("FINISHED", "finished") ].

(** Query schema for listing matches *)
Definition listMatchesQuerySchema : ZodType :=
  z_object
    [ ("limit",
       z_coerce_number |> ZodNumber.int |> ZodNumber.positive
                       |> ZodNumber.max 100 |> optional) ].

(** Params schema for matchId *)
Definition matchIdParamSchema : ZodType :=
  z_object [ ("id", z_coerce_number |> ZodNumber.int |> ZodNumber.positive) ].

(** Update score schema *)
Definition updateScoreSchema : ZodType :=
  z_object
    [ ("homeScore", z_coerce_number |> ZodNumber.int |> ZodNumber.min 0);
      ("awayScore", z_coerce_number |> ZodNumber.int |> ZodNumber.min 0) ].

Section CreateMatch.

(** The pattern [z.iso.datetime()] tests and the runtime's [Date.parse]
    (NaN when the text is not a date). *)
Variable datetime : string -> bool.
Variable Date_parse : value -> number.

Definition createMatchRefinement (data : value) : list raw_issue :=
  let start := Date_parse (get "startTime" data) in
  let end_ := Date_parse (get "endTime" data) in
  (if Number_isNaN start
   then [addIssue custom "startTime must be a valid ISO date"] else [])
  ++ (if Number_isNaN end_
      then [addIssue custom "endTime must be a valid ISO date"] else [])
  ++ (if negb (Number_isNaN start) && negb (Number_isNaN end_) && num_le end_ start
      then [addIssue custom "endTime must be after startTime"] else []).

(** Create match schema *)
Definition createMatchSchema : ZodType :=
  z_object
    [ ("sport", z_string |> ZodString.min 1 "sport is required");
      ("homeTeam", z_string |> ZodString.min 1 "homeTeam is required");
      ("awayTeam", z_string |> ZodString.min 1 "awayTeam is required");
      ("startTime", z_iso_datetime datetime);
      ("endTime", z_iso_datetime datetime);
      ("homeScore", z_coerce_number |> ZodNumber.int |> ZodNumber.min 0 |> optional);
      ("awayScore", z_coerce_number |> ZodNumber.int |> ZodNumber.min 0 |> optional) ]
  |> superRefine createMatchRefinement.

End CreateMatch.

(** ** A reference date-time pattern and [Date.parse]

    [Reference.datetime] recognises what the pattern of [z.iso.datetime()]
    accepts with its default options: a Gregorian calendar date, [T], a
    time [HH:mm], optionally [:ss] and a fraction, and the zone [Z].
    [Reference.Date_parse] gives the time value of such a string in
    milliseconds since the epoch and NaN on anything else.  They
    instantiate the two parameters of [createMatchSchema] on concrete
    requests. *)

Module Reference.

Record DateTime : Type := mk_DateTime {
  year : Z; month : Z; day : Z;
  hours : Z; minutes : Z; seconds : Z;
  milliseconds : Z
}.

Definition is_leap_year (y : Z) : bool :=
  ((y mod 4 =? 0) && negb (y mod 100 =? 0)) || (y mod 400 =? 0).

Definition days_in_month (y m : Z) : Z :=
  if m =? 2 then (if is_leap_year y then 29 else 28)
  else if (m =? 4) || (m =? 6) || (m =? 9) || (m =? 11) then 30
  else 31.

(** Exactly [n] decimal digits in front of [s]. *)
Fixpoint fixed_digits (n : nat) (s : list ascii) (acc : Z) : option (Z * list ascii) :=
  match n with
  | O => Some (acc, s)
  | S n' =>
      match s with
      | c :: rest =>
          match decimal_digit c with
          | Some d => fixed_digits n' rest (acc * 10 + d)
          | None => None
          end
      | [] => None
      end
  end.

Definition expect (c : ascii) (s : list ascii) : option (list ascii) :=
  match s with
  | c' :: rest => if Ascii.eqb c c' then Some rest else None
  | [] => None
  end.

Definition bind {A B : Type} (o : option A) (f : A -> option B) : option B :=
  match o with Some a => f a | None => None end.

Notation "' p <- o ;; k" := (bind o (fun p => k))
  (at level 61, p pattern, o at next level, right associativity).
Notation "x <- o ;; k" := (bind o (fun x => k))
  (at level 61, o at next level, right associativity).

Definition guard (b : bool) : option unit := if b then Some tt else None.

(** The seconds and fraction that may follow [HH:mm], then [Z]. *)
Definition parse_seconds (s : list ascii) : option (Z * Z) :=
  match s with
  | ":"%char :: s1 =>
      '(ss, s2) <- fixed_digits 2 s1 0 ;;
      _ <- guard (ss <=? 59) ;;
      match s2 with
      | "."%char :: s3 =>
          let '(frac, count, s4) := read_digits 10 decimal_digit s3 0 0 in
          _ <- guard (0 <? count) ;;
          _ <- guard (list_ascii_eqb s4 ["Z"%char]) ;;
          Some (ss, frac * 1000 / 10 ^ count)
      | _ =>
          _ <- guard (list_ascii_eqb s2 ["Z"%char]) ;;
          Some (ss, 0)
      end
  | _ =>
      _ <- guard (list_ascii_eqb s ["Z"%char]) ;;
      Some (0, 0)
  end.

Definition parse_datetime (str : string) : option DateTime :=
  let s := list_ascii_of_string str in
  '(y, s) <- fixed_digits 4 s 0 ;;
  s <- expect "-" s ;;
  '(m, s) <- fixed_digits 2 s 0 ;;
  s <- expect "-" s ;;
  '(d, s) <- fixed_digits 2 s 0 ;;
  _ <- guard ((1 <=? m) && (m <=? 12) && (1 <=? d) && (d <=? days_in_month y m)) ;;
  s <- expect "T" s ;;
  '(hh, s) <- fixed_digits 2 s 0 ;;
  s <- expect ":" s ;;
  '(mm, s) <- fixed_digits 2 s 0 ;;
  _ <- guard ((hh <=? 23) && (mm <=? 59)) ;;
  '(ss, ms) <- parse_seconds s ;;
  Some (mk_DateTime y m d hh mm ss ms).

Definition datetime (str : string) : bool :=
  match parse_datetime str with Some _ => true | None => false end.

(** Days between the epoch and a civil date. *)
Definition days_from_civil (y m d : Z) : Z :=
  let y' := if m <=? 2 then y - 1 else y in
  let era := y' / 400 in
  let yoe := y' - era * 400 in
  let doy := (153 * (if 2 <? m then m - 3 else m + 9) + 2) / 5 + d - 1 in
  let doe := yoe * 365 + yoe / 4 - yoe / 100 + doy in
  era * 146097 + doe - 719468.

Definition time_value (t : DateTime) : Z :=
  (((days_from_civil (year t) (month t) (day t) * 24 + hours t) * 60
    + minutes t) * 60 + seconds t) * 1000 + milliseconds t.

Definition Date_parse (v : value) : number :=
  match v with
  | VStr s =>
      match parse_datetime s with
      | Some t => num (time_value t)
      | None => NaN
      end
  | _ => NaN
  end.

End Reference.

(** ** The relational store

    The part of [drizzle-orm/pg-core] that [src/db/schema.js] uses to
    declare its tables, and what an [INSERT] does with such a
    declaration: a column that is given no value takes its default, a
    [NOT NULL] column refuses NULL, a value must belong to its column's
    type, a primary key is unique, a foreign key needs the row it refers
    to. *)

Module Pg.

Inductive sqlvalue : Type :=
| Null
| Int (z : Z)
| Text (s : string)
| Timestamp (t : Z)              (* milliseconds since the epoch *)
| Jsonb (v : value)
| Array (items : list sqlvalue).

Inductive columnType : Type :=
| PgSerial
| PgText
| PgTimestamp
| PgInteger
| PgEnumColumn (enumName : string) (enumValues : list string)
| PgJsonb
| PgArray (baseType : columnType).

Inductive columnDefault : Type :=
| NoDefault
| DefaultValue (v : sqlvalue)
| DefaultNow
| DefaultNextval.

Record column : Type := mk_column {
  name : string;
  columnType_ : columnType;
  notNull_ : bool;
  hasDefault : bool;
  default_ : columnDefault;
  primary : bool
}.

Definition plain (n : string) (ty : columnType) : column :=
  {| name := n; columnType_ := ty; notNull_ := false; hasDefault := false;
     default_ := NoDefault; primary := false |}.

Definition serial (n : string) : column :=
  {| name := n; columnType_ := PgSerial; notNull_ := true; hasDefault := true;
     default_ := DefaultNextval; primary := false |}.
Definition text (n : string) : column := plain n PgText.
Definition timestamp (n : string) : column := plain n PgTimestamp.
Definition integer (n : string) : column := plain n PgInteger.
Definition jsonb (n : string) : column := plain n PgJsonb.

Record PgEnum : Type := mk_enum {
  enumName : string;
  enumValues : list string
}.

Definition pgEnum (n : string) (values : list string) : PgEnum :=
  {| enumName := n; enumValues := values |}.

(** An enum is its own column builder: [matchStatusEnum('status')]. *)
Definition enumColumn (e : PgEnum) (n : string) : column :=
  plain n (PgEnumColumn (enumName e) (enumValues e)).

Definition primaryKey (c : column) : column :=
  {| name := name c; columnType_ := columnType_ c; notNull_ := true;
     hasDefault := hasDefault c; default_ := default_ c; primary := true |}.

Definition notNull (c : column) : column :=
  {| name := name c; columnType_ := columnType_ c; notNull_ := true;
     hasDefault := hasDefault c; default_ := default_ c; primary := primary c |}.

Definition default (v : sqlvalue) (c : column) : column :=
  {| name := name c; columnType_ := columnType_ c; notNull_ := notNull_ c;
     hasDefault := true; default_ := DefaultValue v; primary := primary c |}.

Definition defaultNow (c : column) : column :=
  {| name := name c; columnType_ := columnType_ c; notNull_ := notNull_ c;
     hasDefault := true; default_ := DefaultNow; primary := primary c |}.

Definition array (c : column) : column :=
  {| name := name c; columnType_ := PgArray (columnType_ c);
     notNull_ := notNull_ c; hasDefault := hasDefault c;
     default_ := default_ c; primary := primary c |}.

Record ForeignKey : Type := foreignKey {
  fk_columns : list string;
  foreignTable : string;
  foreignColumns : list string
}.

Record PgTable : Type := pgTable {
  tableName : string;
  columns : list (string * column);
  foreignKeys : list ForeignKey
}.

(** *** Rows and INSERT *)

Definition row : Type := list (string * sqlvalue).

Definition field (key : string) (r : row) : sqlvalue :=
  match lookup key r with Some v => v | None => Null end.

Inductive db_error : Type :=
| not_null_violation (col : string)
| invalid_value (col : string)
| unique_violation (col : string)
| foreign_key_violation (col : string).

Definition int4_min : Z := - 2 ^ 31.
Definition int4_max : Z := 2 ^ 31 - 1.

(** Whether a value other than NULL belongs to a column type. *)
Fixpoint conforms (ty : columnType) (v : sqlvalue) : bool :=
  match ty, v with
  | PgSerial, Int z | PgInteger, Int z => (int4_min <=? z) && (z <=? int4_max)
  | PgText, Text _ => true
  | PgTimestamp, Timestamp _ => true
  | PgEnumColumn _ values, Text s => existsb (String.eqb s) values
  | PgJsonb, Jsonb _ => true
  | PgArray base, Array items => forallb (conforms base) items
  | _, _ => false
  end.

(** The values handed to [.values(...)]: a key bound to [None] stands for
    a property that is [undefined]. *)
Definition insertValues : Type := list (string * option sqlvalue).

Definition supplied (key : string) (vals : insertValues) : option sqlvalue :=
  match lookup key vals with Some (Some v) => Some v | _ => None end.

Definition column_value (c : column) (given : option sqlvalue)
           (now nextval : Z) : sqlvalue :=
  match given with
  | Some v => v
  | None =>
      match default_ c with
      | DefaultValue v => v
      | DefaultNow => Timestamp now
      | DefaultNextval => Int nextval
      | NoDefault => Null
      end
  end.

Definition check_column (c : column) (v : sqlvalue) : option db_error :=
  match v with
  | Null => if notNull_ c then Some (not_null_violation (name c)) else None
  | _ => if conforms (columnType_ c) v then None else Some (invalid_value (name c))
  end.

Definition build_row (t : PgTable) (vals : insertValues) (now nextval : Z) : row :=
  map (fun '(key, c) => (key, column_value c (supplied key vals) now nextval))
      (columns t).

Fixpoint check_row (cols : list (string * column)) (r : row) : option db_error :=
  match cols with
  | [] => None
  | (key, c) :: rest =>
      match check_column c (field key r) with
      | Some e => Some e
      | None => check_row rest r
      end
  end.

Definition primary_keys (t : PgTable) : list string :=
  map fst (filter (fun kc => primary (snd kc)) (columns t)).

Definition sqlvalue_eqb (a b : sqlvalue) : bool :=
  match a, b with
  | Int x, Int y => x =? y
  | Text x, Text y => String.eqb x y
  | Timestamp x, Timestamp y => x =? y
  | _, _ => false
  end.

(** Some existing row carries value [v] in column [key]. *)
Definition exists_with (key : string) (v : sqlvalue) (rows : list row) : bool :=
  existsb (fun r => sqlvalue_eqb (field key r) v) rows.

Definition check_unique (t : PgTable) (r : row) (rows : list row) : option db_error :=
  match filter (fun key => exists_with key (field key r) rows) (primary_keys t) with
  | key :: _ => Some (unique_violation key)
  | [] => None
  end.

(** *** Foreign keys

    The rows of the tables of the store, by table name. *)
Definition tables : Type := string -> list row.

(** [target] carries in the referenced columns what [r] carries in the
    referencing ones. *)
Definition referenced_by (fk : ForeignKey) (r target : row) : bool :=
  forallb (fun cf => let '(c, fc) := cf in sqlvalue_eqb (field fc target) (field c r))
          (combine (fk_columns fk) (foreignColumns fk)).

Definition is_null (v : sqlvalue) : bool :=
  match v with Null => true | _ => false end.

(** A foreign key holds for a row that is NULL in one of the referencing
    columns or that some row of the referenced table answers. *)
Definition fk_holds (fk : ForeignKey) (r : row) (store : tables) : bool :=
  existsb (fun c => is_null (field c r)) (fk_columns fk)
  || existsb (referenced_by fk r) (store (foreignTable fk)).

Definition fk_column (t : PgTable) (fk : ForeignKey) : string :=
  match fk_columns fk with
  | c :: _ => match lookup c (columns t) with Some col => name col | None => c end
  | [] => ""
  end.

Definition check_foreign (t : PgTable) (r : row) (store : tables) : option db_error :=
  match filter (fun fk => negb (fk_holds fk r store)) (foreignKeys t) with
  | fk :: _ => Some (foreign_key_violation (fk_column t fk))
  | [] => None
  end.

(** *** jsonb

    A [jsonb] column is written with the JSON text of the value
    ([JSON.stringify]) and read by parsing the text the store gives
    back.  The store does not keep the text: it keeps each object with
    its keys sorted, shorter keys first and keys of one length in byte
    order, so that is the order of the fields of the value read. *)

(** The bytes a string takes in the store's UTF-8: one for a code unit
    below 128, two for the others. *)
Definition utf8_length (s : string) : nat :=
  fold_right (fun c n => ((if (nat_of_ascii c <? 128)%nat then 1 else 2) + n)%nat)
             0%nat (list_ascii_of_string s).

Definition key_ltb (a b : string) : bool :=
  match Nat.compare (utf8_length a) (utf8_length b) with
  | Lt => true
  | Gt => false
  | Eq => match String.compare a b with Lt => true | _ => false end
  end.

(** A binding put at its place among sorted ones; it takes the place of
    a binding of the same key. *)
Fixpoint insert_key (k : string) (v : value) (fields : list (string * value))
  : list (string * value) :=
  match fields with
  | [] => [(k, v)]
  | (k', v') :: rest =>
      if String.eqb k k' then (k, v) :: rest
      else if key_ltb k k' then (k, v) :: fields
      else (k', v') :: insert_key k v rest
  end.

Definition sort_keys (fields : list (string * value)) : list (string * value) :=
  fold_right (fun kv sorted => insert_key (fst kv) (snd kv) sorted) [] fields.

Fixpoint jsonb_in (v : value) : value :=
  match v with
  | VArr items => VArr (map jsonb_in items)
  | VObj fields =>
      VObj (sort_keys (map (fun kv => let '(k, x) := kv in (k, jsonb_in x)) fields))
  | _ => v
  end.

(** The parameter the query builder sends for a [jsonb] column: nothing
    for [undefined] (the column is left out), NULL for [null], the JSON
    text otherwise, here as the value the store makes of it. *)
Definition jsonb_param (v : value) : option sqlvalue :=
  match v with
  | VNull => Some Null
  | _ => option_map (fun j => Jsonb (jsonb_in j)) (JSON.clone v)
  end.


End Pg.

Import Pg.

(** ** src/db/schema.js *)

(** Define match_status enum *)
Definition matchStatusEnum : PgEnum :=
  pgEnum "match_status" [ "scheduled"; "live"; "finished" ].

(** Matches table *)
Definition matches : PgTable :=
  pgTable "matches"
    [ ("id", serial "id" |> primaryKey);
      ("sport", text "sport" |> notNull);
      ("homeTeam", text "home_team" |> notNull);
      ("awayTeam", text "away_team" |> notNull);
      ("status", enumColumn matchStatusEnum "status"
                   |> default (Text "scheduled") |> notNull);
      ("startTime", timestamp "start_time" |> notNull);
      ("endTime", timestamp "end_time");
      ("homeScore", integer "home_score" |> default (Int 0) |> notNull);
      ("awayScore", integer "away_score" |> default (Int 0) |> notNull);
      ("createdAt", timestamp "created_at" |> defaultNow |> notNull) ]
    [].

(** Commentary table *)
Definition commentary : PgTable :=
  pgTable "commentary"
    [ ("id", serial "id" |> primaryKey);
      ("matchId", integer "match_id" |> notNull);
      ("minute", integer "minute");
      ("sequence", integer "sequence");
      ("period", text "period");
      ("eventType", text "event_type");
      ("actor", text "actor");
      ("team", text "team");
      ("message", text "message");
      ("metadata", jsonb "metadata");
      ("tags", text "tags" |> array);
      ("createdAt", timestamp "created_at" |> defaultNow |> notNull) ]
    [ foreignKey [ "matchId" ] "matches" [ "id" ] ].

(** ** Storage operations

    Modelled from the spec: the operations of section 4.2 on the two
    tables. *)

Module Storage.

(** Modelled from the spec: the state of the store, the rows of the two
    tables and the serials of their ids. *)
Record database : Type := mk_database {
  matches_rows : list row;
  matches_id_seq : Z;             (* next value of the serial of [matches.id] *)
  commentary_rows : list row;
  commentary_id_seq : Z
}.

(** Modelled from the spec: the results of section 4.2 and the error
    kinds of section 7. *)
Inductive outcome (A : Type) : Type :=
| Ok (a : A)
| NotFound
| ConstraintError (e : db_error).

Arguments Ok {A} a.
Arguments NotFound {A}.
Arguments ConstraintError {A} e.

(** The rows of the tables of a store. *)
Definition table_rows (db : database) : tables :=
  fun tableName =>
    if String.eqb tableName "matches" then matches_rows db
    else if String.eqb tableName "commentary" then commentary_rows db
    else [].

(** [db.insert(t).values(vals).returning()] against the rows [rows] of
    [t], the serial standing at [nextval] and the tables [foreign] its
    foreign keys refer to: the new row, or the error the store raises. *)
Definition insert_row (t : PgTable) (vals : insertValues) (now nextval : Z)
           (rows : list row) (foreign : tables) : db_error + row :=
  let r := build_row t vals now nextval in
  match check_row (columns t) r with
  | Some e => inl e
  | None =>
      match check_unique t r rows with
      | Some e => inl e
      | None =>
          match check_foreign t r foreign with
          | Some e => inl e
          | None => inr r
          end
      end
  end.

Definition by_id (id : Z) (r : row) : bool := sqlvalue_eqb (field "id" r) (Int id).

(** Modelled from the spec: the [fields] argument of [createMatch], the
    columns of a match a caller may supply (section 3). *)
Record NewMatch : Type := mk_NewMatch {
  f_sport : option string;
  f_homeTeam : option string;
  f_awayTeam : option string;
  f_status : option string;
  f_startTime : option Z;
  f_endTime : option Z;
  f_homeScore : option Z;
  f_awayScore : option Z
}.

Definition matchValues (f : NewMatch) : insertValues :=
  [ ("sport", option_map Text (f_sport f));
    ("homeTeam", option_map Text (f_homeTeam f));
    ("awayTeam", option_map Text (f_awayTeam f));
    ("status", option_map Text (f_status f));
    ("startTime", option_map Timestamp (f_startTime f));
    ("endTime", option_map Timestamp (f_endTime f));
    ("homeScore", option_map Int (f_homeScore f));
    ("awayScore", option_map Int (f_awayScore f)) ].

(** Modelled from the spec: the storage operation [createMatch(fields)]
    of section 4.2 (the module issuing the statements is not part of the
    sources at hand).  It "assigns id, status=scheduled unless
    overridden, scores=0 unless overridden, createdAt=now": one INSERT
    into [matches], in which the store fills the columns left out from
    the defaults the table declares. *)
Definition createMatch (fields : NewMatch) (now : Z) (db : database)
  : database * outcome row :=
  let nextval := matches_id_seq db in
  match insert_row matches (matchValues fields) now nextval (matches_rows db)
                   (table_rows db) with
  | inl e =>
      ({| matches_rows := matches_rows db;
          matches_id_seq := nextval + 1;
          commentary_rows := commentary_rows db;
          commentary_id_seq := commentary_id_seq db |},
       ConstraintError e)
  | inr r =>
      ({| matches_rows := matches_rows db ++ [r];
          matches_id_seq := nextval + 1;
          commentary_rows := commentary_rows db;
          commentary_id_seq := commentary_id_seq db |},
       Ok r)
  end.

(** Modelled from the spec: [listMatches(limit?)], "returns matches,
    optionally capped at limit". *)
Definition listMatches (limit : option Z) (db : database) : list row :=
  match limit with
  | Some n => firstn (Z.to_nat n) (matches_rows db)
  | None => matches_rows db
  end.

(** Modelled from the spec: [getMatch(id) -> Match | NotFound]. *)
Definition getMatch (id : Z) (db : database) : outcome row :=
  match find (by_id id) (matches_rows db) with
  | Some r => Ok r
  | None => NotFound
  end.

Definition set_scores (homeScore awayScore : Z) (r : row) : row :=
  update "awayScore" (Int awayScore) (update "homeScore" (Int homeScore) r).

(** Modelled from the spec:
    [updateMatchScore(id, homeScore, awayScore) -> Match | NotFound], one
    UPDATE of the two score columns of the row with that id. *)
Definition updateMatchScore (id homeScore awayScore : Z) (db : database)
  : database * outcome row :=
  match find (by_id id) (matches_rows db) with
  | None => (db, NotFound)
  | Some r =>
      if negb (conforms PgInteger (Int homeScore)) then
        (db, ConstraintError (invalid_value "home_score"))
      else if negb (conforms PgInteger (Int awayScore)) then
        (db, ConstraintError (invalid_value "away_score"))
      else
        ({| matches_rows :=
              map (fun r => if by_id id r then set_scores homeScore awayScore r else r)
                  (matches_rows db);
            matches_id_seq := matches_id_seq db;
            commentary_rows := commentary_rows db;
            commentary_id_seq := commentary_id_seq db |},
         Ok (set_scores homeScore awayScore r))
  end.

Definition references (matchId : Z) (c : row) : bool :=
  sqlvalue_eqb (field "matchId" c) (Int matchId).

(** Modelled from the spec: [deleteMatch(id) -> success | NotFound].
    Section 9 leaves open what happens to the commentary of a deleted
    match; [cascade] chooses between removing it with the match and
    refusing the deletion while commentary refers to the match. *)
Definition deleteMatch (cascade : bool) (id : Z) (db : database)
  : database * outcome unit :=
  match find (by_id id) (matches_rows db) with
  | None => (db, NotFound)
  | Some _ =>
      if cascade || negb (existsb (references id) (commentary_rows db)) then
        ({| matches_rows := filter (fun r => negb (by_id id r)) (matches_rows db);
            matches_id_seq := matches_id_seq db;
            commentary_rows :=
              filter (fun c => negb (references id c)) (commentary_rows db);
            commentary_id_seq := commentary_id_seq db |},
         Ok tt)
      else (db, ConstraintError (foreign_key_violation "match_id"))
  end.

(** Modelled from the spec: the [fields] argument of [addCommentary], the
    columns of a commentary entry a caller may supply (section 3). *)
Record NewCommentary : Type := mk_NewCommentary {
  c_minute : option Z;
  c_sequence : option Z;
  c_period : option string;
  c_eventType : option string;
  c_actor : option string;
  c_team : option string;
  c_message : option string;
  c_metadata : option value;
  c_tags : option (list string)
}.

Definition commentaryValues (matchId : Z) (f : NewCommentary) : insertValues :=
  [ ("matchId", Some (Int matchId));
    ("minute", option_map Int (c_minute f));
    ("sequence", option_map Int (c_sequence f));
    ("period", option_map Text (c_period f));
    ("eventType", option_map Text (c_eventType f));
    ("actor", option_map Text (c_actor f));
    ("team", option_map Text (c_team f));
    ("message", option_map Text (c_message f));
    ("metadata", match c_metadata f with Some v => jsonb_param v | None => None end);
    ("tags", option_map (fun tags => Array (map Text tags)) (c_tags f)) ].

(** Modelled from the spec: [addCommentary(matchId, fields)], which
    "fails if matchId does not correspond to an existing match": one
    INSERT into [commentary] under the foreign key the table declares. *)
Definition addCommentary (matchId : Z) (fields : NewCommentary) (now : Z)
           (db : database) : database * outcome row :=
  let nextval := commentary_id_seq db in
  let db' rows :=
    {| matches_rows := matches_rows db;
       matches_id_seq := matches_id_seq db;
       commentary_rows := rows;
       commentary_id_seq := nextval + 1 |} in
  match insert_row commentary (commentaryValues matchId fields) now nextval
                   (commentary_rows db) (table_rows db) with
  | inl e => (db' (commentary_rows db), ConstraintError e)
  | inr c => (db' (commentary_rows db ++ [c]), Ok c)
  end.

(** Modelled from the spec: [listCommentary(matchId) -> Commentary[]]. *)
Definition listCommentary (matchId : Z) (db : database) : list row :=
  filter (references matchId) (commentary_rows db).





End Storage.

Import Storage.

(** ** The routes

    Modelled from the spec: the routing layer of section 4.3 (the router
    module is imported by [src/index.js] but is not part of the sources
    at hand).  Each route is "a validation step followed by exactly one
    storage operation", answered with 200/201 on success, 400 on a
    validation failure, 404 on a missing resource and 500 otherwise. *)

Module Routes.

(** Modelled from the spec: the HTTP surface of section 6. *)
Inductive request : Type :=
| GET_matches (query : value)
| GET_match (params : value)
| POST_matches (body : value)
| PATCH_match_score (params body : value)
| DELETE_match (params : value)
| POST_commentary (params : value) (fields : NewCommentary)
| GET_commentary (params : value).

(** Modelled from the spec: the outcomes of section 4.3 with their
    status codes. *)
Inductive response : Type :=
| OK_rows (rows : list row)              (* 200 *)
| OK_row (r : row)                       (* 200 *)
| OK_empty                               (* 200 *)
| Created (r : row)                      (* 201 *)
| BadRequest (error : list issue)        (* 400 *)
| NotFound404                            (* 404 *)
| ServerError (e : db_error).            (* 500 *)

Definition status_code (r : response) : Z :=
  match r with
  | OK_rows _ | OK_row _ | OK_empty => 200
  | Created _ => 201
  | BadRequest _ => 400
  | NotFound404 => 404
  | ServerError _ => 500
  end.

Definition string_of (v : value) : option string :=
  match v with VStr s => Some s | _ => None end.

Definition int_of (v : value) : option Z :=
  match v with VNum n => to_int n | _ => None end.

Section Handlers.

Variable datetime : string -> bool.
Variable Date_parse : value -> number.
Variable cascade : bool.

(** Modelled from the spec: the fields of the match to store, read off
    a validated create-match body; the two times become timestamps the
    way [new Date(text)] reads them. *)
Definition newMatch_of (data : value) : NewMatch :=
  {| f_sport := string_of (get "sport" data);
     f_homeTeam := string_of (get "homeTeam" data);
     f_awayTeam := string_of (get "awayTeam" data);
     f_status := None;
     f_startTime := to_int (Date_parse (get "startTime" data));
     f_endTime := to_int (Date_parse (get "endTime" data));
     f_homeScore := int_of (get "homeScore" data);
     f_awayScore := int_of (get "awayScore" data) |}.

(** Modelled from the spec: the validation step of the routes under
    [/matches/:id], [matchIdParam] applied to the route params. *)
Definition with_id (params : value) (db : database)
           (k : Z -> database * response) : database * response :=
  match safeParse matchIdParamSchema params with
  | Failure e => (db, BadRequest e)
  | Success p =>
      match int_of (get "id" p) with
      | Some id => k id
      | None => (db, BadRequest [])
      end
  end.

(** Modelled from the spec: the dispatch of section 4.3, one validation
    step and one storage operation per route of section 6. *)
Definition handle (req : request) (now : Z) (db : database)
  : database * response :=
  match req with
  | GET_matches query =>
      match safeParse listMatchesQuerySchema query with
      | Failure e => (db, BadRequest e)
      | Success q => (db, OK_rows (listMatches (int_of (get "limit" q)) db))
      end
  | GET_match params =>
      with_id params db (fun id =>
        match getMatch id db with
        | Ok r => (db, OK_row r)
        | NotFound => (db, NotFound404)
        | ConstraintError e => (db, ServerError e)
        end)
  | POST_matches body =>
      match safeParse (createMatchSchema datetime Date_parse) body with
      | Failure e => (db, BadRequest e)
      | Success data =>
          match createMatch (newMatch_of data) now db with
          | (db', Ok r) => (db', Created r)
          | (db', NotFound) => (db', NotFound404)
          | (db', ConstraintError e) => (db', ServerError e)
          end
      end
  | PATCH_match_score params body =>
      with_id params db (fun id =>
        match safeParse updateScoreSchema body with
        | Failure e => (db, BadRequest e)
        | Success data =>
            match int_of (get "homeScore" data), int_of (get "awayScore" data) with
            | Some h, Some a =>
                match updateMatchScore id h a db with
                | (db', Ok r) => (db', OK_row r)
                | (db', NotFound) => (db', NotFound404)
                | (db', ConstraintError e) => (db', ServerError e)
                end
            | _, _ => (db, BadRequest [])
            end
        end)
  | DELETE_match params =>
      with_id params db (fun id =>
        match deleteMatch cascade id db with
        | (db', Ok _) => (db', OK_empty)
        | (db', NotFound) => (db', NotFound404)
        | (db', ConstraintError e) => (db', ServerError e)
        end)
  | POST_commentary params fields =>
      with_id params db (fun id =>
        match addCommentary id fields now db with
        | (db', Ok c) => (db', Created c)
        | (db', NotFound) => (db', NotFound404)
        | (db', ConstraintError e) => (db', ServerError e)
        end)
  | GET_commentary params =>
      with_id params db (fun id => (db, OK_rows (listCommentary id db)))
  end.

End Handlers.

End Routes.

Import Routes.

(** ** Vocabulary of the statements

    What the spec asks of each input, written as tests on the raw
    request, and the invariant of the stored matches.  The properties
    below compare these readings with the schemas and operations above. *)

Definition is_string (v : value) : bool :=
  match v with VStr _ => true | _ => false end.

(** "non-empty string" *)
Definition nonempty_string (v : value) : bool :=
  match v with VStr s => (1 <=? Z.of_nat (String.length s)) | _ => false end.

(** "valid ISO-8601 timestamp", for a given date-time pattern *)
Definition iso_timestamp (datetime : string -> bool) (v : value) : bool :=
  match v with VStr s => datetime s | _ => false end.

(** "coerced to integer", within the bounds [lo] and [hi] *)
Definition coerces_within (lo hi : Z) (v : value) : bool :=
  match to_int (ToNumber v) with
  | Some n => (lo <=? n) && (n <=? hi)
  | None => false
  end.

(** "optional non-negative integer" *)
Definition optional_score (v : value) : bool :=
  is_undefined v || coerces_within 0 Number_MAX_SAFE_INTEGER v.

(** A score that is absent or converts to an integer: nothing stops the
    parse of the field. *)
Definition well_typed_score (v : value) : bool :=
  is_undefined v || Number_isInteger (ToNumber v).

(** The shape of [createMatchSchema]. *)
Definition createMatchFields (datetime : string -> bool) : list (string * ZodType) :=
  [ ("sport", z_string |> ZodString.min 1 "sport is required");
    ("homeTeam", z_string |> ZodString.min 1 "homeTeam is required");
    ("awayTeam", z_string |> ZodString.min 1 "awayTeam is required");
    ("startTime", z_iso_datetime datetime);
    ("endTime", z_iso_datetime datetime);
    ("homeScore", z_coerce_number |> ZodNumber.int |> ZodNumber.min 0 |> optional);
    ("awayScore", z_coerce_number |> ZodNumber.int |> ZodNumber.min 0 |> optional) ].

Definition createMatch_keys : list string :=
  [ "sport"; "homeTeam"; "awayTeam"; "startTime"; "endTime"; "homeScore"; "awayScore" ].

(** No field of a create-match body is missing or of the wrong type: the
    five texts are strings and each score is absent or converts to an
    integer. *)
Definition well_typed (body : value) : bool :=
  is_string (get "sport" body) && is_string (get "homeTeam" body)
  && is_string (get "awayTeam" body) && is_string (get "startTime" body)
  && is_string (get "endTime" body)
  && well_typed_score (get "homeScore" body)
  && well_typed_score (get "awayScore" body).

(** What the spec asks of the field [key] of a create-match body. *)
Definition field_rule (datetime : string -> bool) (key : string) (v : value) : bool :=
  if (key =? "sport")%string || (key =? "homeTeam")%string || (key =? "awayTeam")%string
  then nonempty_string v
  else if (key =? "startTime")%string || (key =? "endTime")%string
  then iso_timestamp datetime v
  else if (key =? "homeScore")%string || (key =? "awayScore")%string
  then optional_score v
  else true.

(** The issues an object schema collects for one entry of its shape, and
    the loop over the shape. *)
Definition field_issues (input : value) (entry : string * ZodType) : list raw_issue :=
  map (prefixIssue (fst entry)) (p_issues (run (snd entry) (get (fst entry) input))).

Definition parse_fields (shape : list (string * ZodType)) (input : value) : payload :=
  fold_left
    (fun final '(key, el) =>
       handlePropertyResult (run el (get key input)) final key input)
    shape
    {| p_value := VObj []; p_issues := [] |}.

Definition score_issues (key : string) (body : value) : list raw_issue :=
  map (prefixIssue key)
      (p_issues (run (z_coerce_number |> ZodNumber.int |> ZodNumber.min 0)
                     (get key body))).

(** Every issue a schema raises sits at the root of the value it parses. *)
Definition root_paths (el : ZodType) : Prop :=
  forall v i, In i (p_issues (run el v)) -> path i = [].

Definition with_default {A : Type} (d : A) (o : option A) : A :=
  match o with Some a => a | None => d end.

(** The invariant of a stored match: its status is one of the enumerated
    values and neither score is negative. *)
Definition match_ok (r : row) : Prop :=
  (exists s, field "status" r = Text s /\ In s (enumValues matchStatusEnum))
  /\ (exists h, field "homeScore" r = Int h /\ 0 <= h)
  /\ (exists a, field "awayScore" r = Int a /\ 0 <= a).

Definition store_ok (db : database) : Prop := Forall match_ok (matches_rows db).

(** Sample data for the closed instances. *)
Definition sample_match : list (string * value) :=
  [ ("sport", VStr "football"); ("homeTeam", VStr "Team A");
    ("awayTeam", VStr "Team B"); ("startTime", VStr "2026-03-01T15:00:00Z") ].

Definition blank_names : list (string * value) :=
  [ ("sport", VStr " "); ("homeTeam", VStr " "); ("awayTeam", VStr " ");
    ("startTime", VStr "2026-03-01T15:00:00Z");
    ("endTime", VStr "2026-03-01T17:00:00Z") ].

Definition empty_database : database :=
  {| matches_rows := []; matches_id_seq := 1;
     commentary_rows := []; commentary_id_seq := 1 |}.

Definition sample_database : database :=
  {| matches_rows :=
       [ [ ("id", Int 1); ("sport", Text "football"); ("homeTeam", Text "Team A");
           ("awayTeam", Text "Team B"); ("status", Text "scheduled");
           ("startTime", Timestamp 1772377200000); ("endTime", Null);
           ("homeScore", Int 0); ("awayScore", Int 0);
           ("createdAt", Timestamp 1772300000000) ] ];
     matches_id_seq := 2;
     commentary_rows := [];
     commentary_id_seq := 1 |}.

Definition sample_commentary : NewCommentary :=
  {| c_minute := None; c_sequence := None; c_period := None; c_eventType := None;
     c_actor := None; c_team := None; c_message := None;
     c_metadata := Some (VObj [ ("playerId", VNum (num 123));
                                ("videoTimestamp", VNum (Fin (91 # 2))) ]);
     c_tags := Some [ "goal"; "highlight" ] |}.






(** The payload of the test "should store and retrieve JSONB metadata
    correctly" of [src/db/integration.test.js]. *)
Definition complexMetadata : value :=
  VObj [ ("player", VObj [ ("id", VNum (num 10)); ("name", VStr "John Doe") ]);
         ("stats", VObj [ ("shots", VNum (num 5)); ("saves", VNum (num 3)) ]);
         ("coordinates", VObj [ ("x", VNum (Fin (91 # 2))); ("y", VNum (Fin (151 # 5))) ]) ].


(** ** Further vocabulary

    Readings and sample data for the further properties at the end. *)

(** Two objects that bind the keys [keys] alike. *)
Definition agree_on (keys : list string) (f1 f2 : list (string * value)) : Prop :=
  forall k, In k keys -> lookup k f1 = lookup k f2.

(** A schema that parses its own output to itself. *)
Definition idempotent (el : ZodType) : Prop :=
  forall v, p_issues (run el v) = [] ->
            run el (p_value (run el v)) = {| p_value := p_value (run el v); p_issues := [] |}.

(** The issue codes a score raises, read off the number it converts to. *)
Definition score_verdict (n : number) : list issue_code :=
  match n with
  | NaN | Infinity _ => [invalid_type "number"]
  | Fin q =>
      if Q_is_int q then
        let z := Q_floor q in
        if (Number_MIN_SAFE_INTEGER <=? z) && (z <=? Number_MAX_SAFE_INTEGER)
        then (if 0 <=? z then [] else [too_small 0])
        else if 0 <? z then [too_big Number_MAX_SAFE_INTEGER]
             else [too_small Number_MIN_SAFE_INTEGER; too_small 0]
      else [invalid_type "int"]
  end.

Definition score_error (key : string) (body : value) : list issue :=
  map (fun c => mk_issue c [key] None) (score_verdict (ToNumber (get key body))).

(** A string of white space only, the empty string included. *)
Definition blank (s : string) : bool :=
  forallb is_StrWhiteSpaceChar (list_ascii_of_string s).




(** The query builder calls of [src/db/integration.test.js]:
    [eq(column, value)], [db.select().from(t).where(cond)] and
    [db.delete(t).where(cond)], on the rows of one table. *)
Module Drizzle.

Definition eq (column : string) (v : sqlvalue) : row -> bool :=
  fun r => sqlvalue_eqb (field column r) v.

Definition select_where (cond : row -> bool) (rows : list row) : list row :=
  filter cond rows.

Definition delete_where (cond : row -> bool) (rows : list row) : list row :=
  filter (fun r => negb (cond r)) rows.

End Drizzle.

(** The columns an INSERT has to supply: NOT NULL and without a default. *)
Definition required (c : column) : bool :=
  notNull_ c && match default_ c with NoDefault => true | _ => false end.

Definition required_columns (t : PgTable) : list string :=
  map fst (filter (fun kc => required (snd kc)) (columns t)).

Definition second_match : row :=
  [ ("id", Int 2); ("sport", Text "basketball"); ("homeTeam", Text "Lakers");
    ("awayTeam", Text "Warriors"); ("status", Text "live");
    ("startTime", Timestamp 1772377200000); ("endTime", Null);
    ("homeScore", Int 85); ("awayScore", Int 92);
    ("createdAt", Timestamp 1772380000000) ].

Definition second_match_values : insertValues :=
  [ ("sport", Some (Text "basketball")); ("homeTeam", Some (Text "Lakers"));
    ("awayTeam", Some (Text "Warriors")); ("status", Some (Text "live"));
    ("startTime", Some (Timestamp 1772377200000));
    ("homeScore", Some (Int 85)); ("awayScore", Some (Int 92)) ].

(** Induction on a value, its items and the values of its fields being
    covered. *)
Section ValueInduction.

Variable P : value -> Prop.
Hypothesis P_undefined : P VUndefined.
Hypothesis P_null : P VNull.
Hypothesis P_bool : forall b, P (VBool b).
Hypothesis P_num : forall n, P (VNum n).
Hypothesis P_str : forall s, P (VStr s).
Hypothesis P_arr : forall items, Forall P items -> P (VArr items).
Hypothesis P_obj : forall fields, Forall (fun kv => P (snd kv)) fields -> P (VObj fields).


End ValueInduction.

(** * Properties *)

(** ** Conversions on sample inputs *)

Example ToNumber_3 : ToNumber (VStr "3") = num 3. Proof. reflexivity. Qed.
Example ToNumber_ws : ToNumber (VStr "  42 ") = num 42. Proof. reflexivity. Qed.
Example ToNumber_neg : ToNumber (VStr "-1") = Fin (-1). Proof. reflexivity. Qed.
Example ToNumber_abc : ToNumber (VStr "abc") = NaN. Proof. reflexivity. Qed.
Example ToNumber_frac : ToNumber (VStr "2.5") = Fin (5 # 2). Proof. reflexivity. Qed.
Example ToNumber_exp : ToNumber (VStr "1e2") = num 100. Proof. reflexivity. Qed.
Example ToNumber_hex : ToNumber (VStr "0x1F") = num 31. Proof. reflexivity. Qed.
Example ToNumber_big : ToNumber (VStr "9007199254740993") = num 9007199254740992.
Proof. vm_compute. reflexivity. Qed.
Example ToNumber_up : ToNumber (VStr "0.99999999999999999999") = num 1.
Proof. vm_compute. reflexivity. Qed.
Example ToNumber_under : ToNumber (VStr "1e-400") = num 0.
Proof. vm_compute. reflexivity. Qed.
Example ToNumber_over : ToNumber (VStr "1e400") = Infinity false.
Proof. vm_compute. reflexivity. Qed.
Example ToNumber_max : ToNumber (VStr "1.7976931348623157e308") = num (2^1024 - 2^971).
Proof. vm_compute. reflexivity. Qed.
Example ToNumber_max2 : ToNumber (VStr "1.7976931348623159e308") = Infinity false.
Proof. vm_compute. reflexivity. Qed.
Example ToNumber_tenth : ToNumber (VStr "0.1") = Fin (3602879701896397 # 36028797018963968).
Proof. vm_compute. reflexivity. Qed.

(** ** Integers among the numbers *)

Lemma Q_int_num q : Q_is_int q = true -> Qnum q = Q_floor q * Zpos (Qden q).
Proof.
  unfold Q_is_int, Q_floor. intros H. apply Z.eqb_eq in H.
  rewrite (Z.div_mod (Qnum q) (Zpos (Qden q))) at 1 by lia. lia.
Qed.

Lemma Qltb_int_l z q : Q_is_int q = true -> Qltb (inject_Z z) q = (z <? Q_floor q).
Proof.
  intros H. unfold Qltb. cbn [inject_Z Qnum Qden]. rewrite (Q_int_num q H).
  destruct (Z.ltb_spec z (Q_floor q)); [apply Z.ltb_lt | apply Z.ltb_ge]; nia.
Qed.

Lemma Qleb_int_l z q : Q_is_int q = true -> Qleb (inject_Z z) q = (z <=? Q_floor q).
Proof.
  intros H. unfold Qleb. cbn [inject_Z Qnum Qden]. rewrite (Q_int_num q H).
  destruct (Z.leb_spec z (Q_floor q)); [apply Z.leb_le | apply Z.leb_gt]; nia.
Qed.

Lemma Qleb_int_r z q : Q_is_int q = true -> Qleb q (inject_Z z) = (Q_floor q <=? z).
Proof.
  intros H. unfold Qleb. cbn [inject_Z Qnum Qden]. rewrite (Q_int_num q H).
  destruct (Z.leb_spec (Q_floor q) z); [apply Z.leb_le | apply Z.leb_gt]; nia.
Qed.

Lemma safe_int_spec q :
  Q_is_int q = true ->
  Number_isSafeInteger (Fin q)
  = (Number_MIN_SAFE_INTEGER <=? Q_floor q) && (Q_floor q <=? Number_MAX_SAFE_INTEGER).
Proof. intros H. cbn. rewrite H. reflexivity. Qed.

Lemma to_int_Fin n z : to_int n = Some z -> exists q, n = Fin q /\ Q_is_int q = true /\ Q_floor q = z.
Proof.
  destruct n as [| s | q]; cbn; try discriminate.
  destruct (Q_is_int q) eqn:E; [| discriminate].
  intros [= <-]. eauto.
Qed.

Lemma to_int_num z : to_int (num z) = Some z.
Proof.
  unfold to_int, num, Q_is_int, Q_floor. cbn [inject_Z Qnum Qden].
  rewrite Z.mod_1_r, Z.div_1_r. reflexivity.
Qed.

(** The strict order on numbers excludes NaN and contradicts [<=] the
    other way round. *)
Lemma num_lt_spec a b :
  num_lt a b = true ->
  Number_isNaN a = false /\ Number_isNaN b = false /\ num_le b a = false.
Proof.
  destruct a as [| [|] | x], b as [| [|] | y]; cbn; try discriminate; auto.
  unfold Qltb, Qleb. intros H. apply Z.ltb_lt in H.
  repeat split. apply Z.leb_gt. lia.
Qed.

Lemma num_le_not_NaN a b :
  num_le a b = true -> Number_isNaN a = false /\ Number_isNaN b = false.
Proof. destruct a as [| [|] | x], b as [| [|] | y]; cbn; try discriminate; auto. Qed.

(** ** Proof automation *)

Ltac number_cases v :=
  let q := fresh "q" in
  let Hn := fresh "Hn" in
  let Hi := fresh "Hi" in
  destruct (ToNumber v) as [| ? | q] eqn:Hn;
  cbn -[Number_isSafeInteger Q_is_int Qltb Qleb inject_Z];
  [ | | destruct (Q_is_int q) eqn:Hi;
        cbn -[Number_isSafeInteger Q_is_int Qltb Qleb inject_Z];
        [ rewrite ?(safe_int_spec q Hi);
          rewrite ?(Qltb_int_l _ q Hi), ?(Qleb_int_l _ q Hi), ?(Qleb_int_r _ q Hi);
          unfold Number_MIN_SAFE_INTEGER, Number_MAX_SAFE_INTEGER;
          repeat match goal with
                 | |- context [?a <=? ?b] => destruct (Z.leb_spec a b); cbn -[Z.pow]
                 | |- context [?a <? ?b] => destruct (Z.ltb_spec a b); cbn -[Z.pow]
                 end
        | ] ].

Ltac unfold_number_run :=
  unfold run;
  cbn -[ToNumber Number_isInteger Number_isSafeInteger num_gt num_ge num_le].

Ltac break_ifs :=
  repeat match goal with
         | |- context [if ?c then _ else _] => destruct c
         end.

(** ** The parsing pipeline *)

Lemma runChecks_app p cs1 cs2 :
  runChecks p (cs1 ++ cs2) = runChecks (runChecks p cs1) cs2.
Proof.
  revert p. induction cs1 as [| ch cs1 IH]; intros p; cbn [runChecks app].
  - reflexivity.
  - destruct (match when ch with Some w => w p | None => negb (aborted (p_issues p)) end);
      apply IH.
Qed.

Lemma runChecks_value p cs : p_value (runChecks p cs) = p_value p.
Proof.
  revert p. induction cs as [| ch cs IH]; intros p; cbn [runChecks].
  - reflexivity.
  - destruct (match when ch with Some w => w p | None => negb (aborted (p_issues p)) end);
      rewrite IH; reflexivity.
Qed.

Lemma run_with_check ch t v : run (with_check ch t) v = runChecks (run t v) [ch].
Proof. unfold run, with_check. cbn [parse checks]. apply runChecks_app. Qed.

(** Checks only ever add issues. *)
Lemma runChecks_issues_prefix p cs :
  exists more, p_issues (runChecks p cs) = p_issues p ++ more.
Proof.
  revert p. induction cs as [| ch cs IH]; intros p; cbn [runChecks].
  - exists []. symmetry. apply app_nil_r.
  - destruct (match when ch with Some w => w p | None => negb (aborted (p_issues p)) end).
    + destruct (IH {| p_value := p_value p;
                      p_issues := p_issues p ++ run_check ch (p_value p) |}) as [more E].
      rewrite E. cbn [p_issues]. rewrite <- app_assoc. eauto.
    + apply IH.
Qed.

Lemma aborted_app a b : aborted (a ++ b) = aborted a || aborted b.
Proof. apply existsb_app. Qed.

Lemma aborted_map_prefix key iss : aborted (map (prefixIssue key) iss) = aborted iss.
Proof.
  unfold aborted. induction iss as [| i iss IH]; cbn; [reflexivity |].
  rewrite IH. reflexivity.
Qed.

(** *** Objects *)

Lemma parse_fields_snoc shape key el input :
  parse_fields (shape ++ [(key, el)]) input
  = handlePropertyResult (run el (get key input)) (parse_fields shape input) key input.
Proof. unfold parse_fields. rewrite fold_left_app. reflexivity. Qed.

Lemma parse_fields_issues shape input :
  p_issues (parse_fields shape input) = flat_map (field_issues input) shape.
Proof.
  induction shape as [| [key el] shape IH] using rev_ind.
  - reflexivity.
  - rewrite parse_fields_snoc, flat_map_app. cbn [handlePropertyResult p_issues].
    rewrite IH. cbn [flat_map field_issues fst snd]. rewrite app_nil_r. reflexivity.
Qed.

Lemma lookup_update {A : Type} k k' (v : A) fields :
  lookup k (update k' v fields)
  = if String.eqb k k' then Some v else lookup k fields.
Proof.
  induction fields as [| [k0 w] fields IH]; cbn [update lookup].
  - reflexivity.
  - destruct (String.eqb_spec k' k0) as [-> | Hne]; cbn [lookup].
    + destruct (String.eqb k k0); reflexivity.
    + rewrite IH. destruct (String.eqb_spec k k0) as [-> | Hne'].
      * destruct (String.eqb_spec k0 k'); [congruence | reflexivity].
      * reflexivity.
Qed.

Lemma parse_fields_object shape input :
  exists fields, p_value (parse_fields shape input) = VObj fields.
Proof.
  induction shape as [| [key el] shape IH] using rev_ind.
  - cbn. eauto.
  - rewrite parse_fields_snoc. destruct IH as [fields E].
    unfold handlePropertyResult. cbn [p_value]. rewrite E.
    destruct (is_undefined (p_value (run el (get key input))));
      [destruct (has key input) |]; cbn [set]; eauto.
Qed.

Lemma get_set k k' v o :
  (exists fields, o = VObj fields) ->
  get k (set k' v o) = if String.eqb k k' then v else get k o.
Proof.
  intros [fields ->]. cbn [set get]. rewrite lookup_update.
  destruct (String.eqb k k'); reflexivity.
Qed.

(** Reading a key of the parsed object gives the parsed value of that
    field; keys outside the shape are dropped. *)
Lemma parse_fields_get shape input k :
  NoDup (map fst shape) ->
  get k (p_value (parse_fields shape input))
  = match lookup k shape with
    | Some el => p_value (run el (get k input))
    | None => VUndefined
    end.
Proof.
  induction shape as [| [key el] shape IH] using rev_ind; intros Hnd.
  - reflexivity.
  - rewrite map_app in Hnd. cbn [map fst] in Hnd.
    assert (Hnd' : NoDup (map fst shape)) by (eapply NoDup_app_remove_r; eauto).
    assert (Hfresh : ~ In key (map fst shape)).
    { apply NoDup_remove_2 in Hnd. rewrite app_nil_r in Hnd. exact Hnd. }
    specialize (IH Hnd').
    assert (Hlk : lookup k (shape ++ [(key, el)])
                  = match lookup k shape with
                    | Some e => Some e
                    | None => if String.eqb k key then Some el else None
                    end).
    { clear. induction shape as [| [k0 e0] shape IHs]; cbn [lookup app].
      - reflexivity.
      - destruct (String.eqb k k0); [reflexivity | exact IHs]. }
    assert (Hnone : lookup key shape = None).
    { clear - Hfresh. induction shape as [| [k0 e0] shape IHs]; cbn [lookup].
      - reflexivity.
      - cbn [map fst In] in Hfresh.
        destruct (String.eqb_spec key k0) as [-> | _]; [tauto |].
        apply IHs. tauto. }
    rewrite parse_fields_snoc, Hlk.
    unfold handlePropertyResult. cbn [p_value].
    destruct (String.eqb_spec k key) as [-> | Hne].
    + rewrite Hnone in *.
      destruct (is_undefined (p_value (run el (get key input)))) eqn:Hu.
      * assert (Hv : p_value (run el (get key input)) = VUndefined).
        { destruct (p_value (run el (get key input))); try discriminate; reflexivity. }
        rewrite Hv.
        destruct (has key input).
        -- rewrite get_set by apply parse_fields_object.
           rewrite String.eqb_refl. reflexivity.
        -- exact IH.
      * rewrite get_set by apply parse_fields_object.
        rewrite String.eqb_refl. reflexivity.
    + assert (Hstep : forall v,
                get k (set key v (p_value (parse_fields shape input)))
                = get k (p_value (parse_fields shape input))).
      { intros v. rewrite get_set by apply parse_fields_object.
        destruct (String.eqb_spec k key); [congruence | reflexivity]. }
      destruct (is_undefined (p_value (run el (get key input))));
        [destruct (has key input) |]; rewrite ?Hstep, IH;
        destruct (lookup k shape); reflexivity.
Qed.

Lemma parse_object shape fields :
  parse (z_object shape) (VObj fields) = parse_fields shape (VObj fields).
Proof. reflexivity. Qed.

(** ** The field schemas

    The schema of a field raises no issue exactly when the field passes
    the test the spec words for it. *)

Lemma coerces_within_spec lo hi v :
  coerces_within lo hi v = true
  <-> exists n, to_int (ToNumber v) = Some n /\ lo <= n <= hi.
Proof.
  unfold coerces_within. destruct (to_int (ToNumber v)) as [n |].
  - rewrite andb_true_iff, Z.leb_le, Z.leb_le. split.
    + intros H. exists n. split; [reflexivity | lia].
    + intros [m [[= <-] H]]. lia.
  - split; [discriminate | intros [m [[=] _]]].
Qed.

(** [z.coerce.number().int().positive()] *)
Lemma positive_int_value v :
  p_value (run (z_coerce_number |> ZodNumber.int |> ZodNumber.positive) v)
  = VNum (ToNumber v).
Proof.
  unfold run. rewrite runChecks_value. cbn. destruct (ToNumber v); reflexivity.
Qed.

Lemma positive_int_ok v :
  p_issues (run (z_coerce_number |> ZodNumber.int |> ZodNumber.positive) v) = []
  <-> coerces_within 1 Number_MAX_SAFE_INTEGER v = true.
Proof.
  unfold coerces_within. unfold_number_run. number_cases v.
  all: unfold Number_MAX_SAFE_INTEGER.
  all: repeat match goal with
              | |- context [?a <=? ?b] => destruct (Z.leb_spec a b); cbn -[Z.pow]
              end.
  all: split; intros Hx; try discriminate Hx; try reflexivity; try lia.
Qed.

(** [z.coerce.number().int().positive().max(100)] *)
Lemma limit_value v :
  p_value (run (z_coerce_number |> ZodNumber.int |> ZodNumber.positive
                                |> ZodNumber.max 100) v)
  = VNum (ToNumber v).
Proof.
  unfold run. rewrite runChecks_value. cbn. destruct (ToNumber v); reflexivity.
Qed.

Lemma limit_ok v :
  p_issues (run (z_coerce_number |> ZodNumber.int |> ZodNumber.positive
                                 |> ZodNumber.max 100) v) = []
  <-> coerces_within 1 100 v = true.
Proof.
  unfold coerces_within. unfold_number_run. number_cases v.
  all: repeat match goal with
              | |- context [?a <=? ?b] => destruct (Z.leb_spec a b); cbn -[Z.pow]
              end.
  all: split; intros Hx; try discriminate Hx; try reflexivity; try lia.
Qed.

Lemma limit_too_big v n :
  to_int (ToNumber v) = Some n -> 100 < n ->
  In (mk_raw (too_big 100) [] None true)
     (p_issues (run (z_coerce_number |> ZodNumber.int |> ZodNumber.positive
                                     |> ZodNumber.max 100) v)).
Proof.
  intros Hn Hbig. apply to_int_Fin in Hn. destruct Hn as [q0 [Hq [Hint Hfl]]].
  unfold_number_run. number_cases v; try discriminate Hq.
  all: injection Hq as <-; try congruence.
  all: cbn; auto; lia.
Qed.

Lemma limit_too_small v n :
  to_int (ToNumber v) = Some n -> n < 1 ->
  In (mk_raw (too_small 0) [] None true)
     (p_issues (run (z_coerce_number |> ZodNumber.int |> ZodNumber.positive
                                     |> ZodNumber.max 100) v)).
Proof.
  intros Hn Hsmall. apply to_int_Fin in Hn. destruct Hn as [q0 [Hq [Hint Hfl]]].
  unfold_number_run. number_cases v; try discriminate Hq.
  all: injection Hq as <-; try congruence.
  all: cbn; auto; lia.
Qed.

(** [z.coerce.number().int().min(0)] *)
Lemma score_value v :
  p_value (run (z_coerce_number |> ZodNumber.int |> ZodNumber.min 0) v)
  = VNum (ToNumber v).
Proof.
  unfold run. rewrite runChecks_value. cbn. destruct (ToNumber v); reflexivity.
Qed.

Lemma score_ok v :
  p_issues (run (z_coerce_number |> ZodNumber.int |> ZodNumber.min 0) v) = []
  <-> coerces_within 0 Number_MAX_SAFE_INTEGER v = true.
Proof.
  unfold coerces_within. unfold_number_run. number_cases v.
  all: unfold Number_MAX_SAFE_INTEGER.
  all: repeat match goal with
              | |- context [?a <=? ?b] => destruct (Z.leb_spec a b); cbn -[Z.pow]
              end.
  all: split; intros Hx; try discriminate Hx; try reflexivity; try lia.
Qed.

(** The score schema stops the parse exactly on a value that does not
    convert to an integer. *)
Lemma score_aborted v :
  aborted (p_issues (run (z_coerce_number |> ZodNumber.int |> ZodNumber.min 0) v))
  = negb (Number_isInteger (ToNumber v)).
Proof.
  unfold_number_run. number_cases v; reflexivity.
Qed.

Lemma score_root_paths v i :
  In i (p_issues (run (z_coerce_number |> ZodNumber.int |> ZodNumber.min 0) v)) ->
  path i = [].
Proof.
  unfold_number_run. number_cases v; cbn; intuition (subst; reflexivity).
Qed.

(** [.optional()] around a schema *)
Lemma optional_undefined t :
  run (optional t) VUndefined = {| p_value := VUndefined; p_issues := [] |}.
Proof. reflexivity. Qed.

Lemma optional_defined t v :
  is_undefined v = false -> run (optional t) v = run t v.
Proof. intros H. unfold run at 1. cbn [optional parse checks runChecks]. rewrite H. reflexivity. Qed.

(** [z.string().min(1, { message })] *)
Lemma name_value msg v :
  p_value (run (z_string |> ZodString.min 1 msg) v) = v.
Proof. unfold run. rewrite runChecks_value. destruct v; reflexivity. Qed.

Lemma length_ge_1 s :
  num_ge (ToNumber (length_of (VStr s))) (num 1) = (1 <=? Z.of_nat (String.length s)).
Proof.
  cbn [length_of ToNumber]. unfold num_ge, num_le, num, Qleb.
  cbn [inject_Z Qnum Qden]. f_equal; lia.
Qed.

Lemma name_issues_string msg s :
  p_issues (run (z_string |> ZodString.min 1 msg) (VStr s))
  = if 1 <=? Z.of_nat (String.length s) then []
    else [mk_raw (too_small 1) [] (Some msg) true].
Proof.
  unfold run. cbn -[num_ge ToNumber length_of]. rewrite length_ge_1. reflexivity.
Qed.

Lemma name_ok msg v :
  p_issues (run (z_string |> ZodString.min 1 msg) v) = []
  <-> nonempty_string v = true.
Proof.
  destruct v as [| | b | n | s | items | fields];
    try (split; [| discriminate]).
  5: { rewrite name_issues_string. cbn [nonempty_string].
       destruct (1 <=? Z.of_nat (String.length s)); split; congruence. }
  all: unfold run; cbn -[num_ge ToNumber]; try discriminate.
  all: repeat match goal with
              | |- context [if ?c then _ else _] => destruct c
              end; discriminate.
Qed.

Lemma name_aborted msg v :
  aborted (p_issues (run (z_string |> ZodString.min 1 msg) v)) = negb (is_string v).
Proof.
  destruct v as [| | b | n | s | items | fields].
  5: { rewrite name_issues_string.
       destruct (1 <=? Z.of_nat (String.length s)); reflexivity. }
  all: unfold run; cbn -[num_ge ToNumber]; try reflexivity.
  all: repeat match goal with
              | |- context [if ?c then _ else _] => destruct c
              end; reflexivity.
Qed.

Lemma name_root_paths msg v i :
  In i (p_issues (run (z_string |> ZodString.min 1 msg) v)) -> path i = [].
Proof.
  destruct v as [| | b | n | s | items | fields].
  5: { rewrite name_issues_string.
       destruct (1 <=? Z.of_nat (String.length s)); cbn; intuition (subst; reflexivity). }
  all: unfold run; cbn -[num_ge ToNumber].
  all: repeat match goal with
              | |- context [if ?c then _ else _] => destruct c
              end; cbn; intuition (subst; reflexivity).
Qed.

(** [z.iso.datetime()] *)
Lemma datetime_value pattern v :
  p_value (run (z_iso_datetime pattern) v) = v.
Proof. unfold run. rewrite runChecks_value. destruct v; reflexivity. Qed.

Lemma datetime_issues_string pattern s :
  p_issues (run (z_iso_datetime pattern) (VStr s))
  = if pattern s then [] else [mk_raw (invalid_format "datetime") [] None true].
Proof. unfold run. cbn. destruct (pattern s); reflexivity. Qed.

Lemma datetime_ok pattern v :
  p_issues (run (z_iso_datetime pattern) v) = [] <-> iso_timestamp pattern v = true.
Proof.
  destruct v as [| | b | n | s | items | fields];
    try (split; discriminate).
  rewrite datetime_issues_string. cbn [iso_timestamp].
  destruct (pattern s); split; congruence.
Qed.

Lemma datetime_aborted pattern v :
  aborted (p_issues (run (z_iso_datetime pattern) v)) = negb (is_string v).
Proof.
  destruct v as [| | b | n | s | items | fields]; try reflexivity.
  rewrite datetime_issues_string. destruct (pattern s); reflexivity.
Qed.

Lemma datetime_root_paths pattern v i :
  In i (p_issues (run (z_iso_datetime pattern) v)) -> path i = [].
Proof.
  destruct v as [| | b | n | s | items | fields];
    try (cbn; intuition (subst; reflexivity)).
  rewrite datetime_issues_string.
  destruct (pattern s); cbn; intuition (subst; reflexivity).
Qed.

Lemma optional_score_value v :
  p_value (run (z_coerce_number |> ZodNumber.int |> ZodNumber.min 0 |> optional) v)
  = if is_undefined v then VUndefined else VNum (ToNumber v).
Proof.
  destruct (is_undefined v) eqn:E.
  - destruct v; try discriminate. reflexivity.
  - rewrite optional_defined by exact E. apply score_value.
Qed.

Lemma optional_score_ok v :
  p_issues (run (z_coerce_number |> ZodNumber.int |> ZodNumber.min 0 |> optional) v) = []
  <-> optional_score v = true.
Proof.
  unfold optional_score. destruct (is_undefined v) eqn:E.
  - destruct v; try discriminate. cbn. tauto.
  - rewrite optional_defined by exact E. cbn [orb]. apply score_ok.
Qed.

Lemma optional_score_aborted v :
  aborted (p_issues (run (z_coerce_number |> ZodNumber.int |> ZodNumber.min 0
                                          |> optional) v))
  = negb (well_typed_score v).
Proof.
  unfold well_typed_score. destruct (is_undefined v) eqn:E.
  - destruct v; try discriminate. reflexivity.
  - rewrite optional_defined by exact E. cbn [orb]. apply score_aborted.
Qed.

Lemma optional_score_root_paths v i :
  In i (p_issues (run (z_coerce_number |> ZodNumber.int |> ZodNumber.min 0
                                       |> optional) v)) ->
  path i = [].
Proof.
  destruct (is_undefined v) eqn:E.
  - destruct v; try discriminate. cbn. tauto.
  - rewrite optional_defined by exact E. apply score_root_paths.
Qed.

(** ** listMatches, matchIdParam and updateScore *)

Lemma is_undefined_false v : v <> VUndefined -> is_undefined v = false.
Proof. destruct v; try reflexivity. congruence. Qed.

Lemma safeParse_object1 key el fields :
  safeParse (z_object [(key, el)]) (VObj fields)
  = let r := run el (get key (VObj fields)) in
    match p_issues r with
    | [] => Success (if is_undefined (p_value r)
                     then (if has key (VObj fields) then VObj [(key, VUndefined)] else VObj [])
                     else VObj [(key, p_value r)])
    | iss => Failure (map finalizeIssue (map (prefixIssue key) iss))
    end.
Proof.
  assert (Hrun : run (z_object [(key, el)]) (VObj fields)
                 = handlePropertyResult (run el (get key (VObj fields)))
                     {| p_value := VObj []; p_issues := [] |} key (VObj fields))
    by reflexivity.
  unfold safeParse. rewrite Hrun. unfold handlePropertyResult.
  cbn [p_issues p_value app set update]. cbv zeta.
  destruct (p_issues (run el (get key (VObj fields)))) as [| i iss]; cbn [map].
  - destruct (is_undefined _); [destruct (has _ _) |]; reflexivity.
  - reflexivity.
Qed.


Lemma listMatches_defined fields :
  get "limit" (VObj fields) <> VUndefined ->
  safeParse listMatchesQuerySchema (VObj fields)
  = match p_issues (run (z_coerce_number |> ZodNumber.int |> ZodNumber.positive
                                         |> ZodNumber.max 100)
                        (get "limit" (VObj fields))) with
    | [] => Success (VObj [("limit", VNum (ToNumber (get "limit" (VObj fields))))])
    | iss => Failure (map finalizeIssue (map (prefixIssue "limit") iss))
    end.
Proof.
  intros Hdef. unfold listMatchesQuerySchema. rewrite safeParse_object1. cbv zeta.
  rewrite optional_defined by (apply is_undefined_false; exact Hdef).
  rewrite limit_value. reflexivity.
Qed.

(** C3.  The query of listMatches passes without a [limit]; it passes
    with every [limit] that converts to an integer between 1 and 100,
    keeping the converted number; it fails on every [limit] that
    converts to an integer below 1 or above 100, above 100 with a
    [too_big] issue whose bound is 100 at path [limit]; and [limit=101]
    fails with exactly that issue. *)
Theorem listMatches_limit_bounds : forall fields : list (string * value),
  let query := VObj fields in
  let limit := get "limit" query in
  let result := safeParse listMatchesQuerySchema query in
  (lookup "limit" fields = None -> result = Success (VObj []))
  /\ (forall n, limit <> VUndefined -> to_int (ToNumber limit) = Some n ->
        1 <= n <= 100 ->
        result = Success (VObj [("limit", VNum (ToNumber limit))]))
  /\ (forall n, limit <> VUndefined -> to_int (ToNumber limit) = Some n ->
        n < 1 \/ 100 < n ->
        success result = false
        /\ (100 < n -> In (mk_issue (too_big 100) ["limit"] None) (error_of result)))
  /\ safeParse listMatchesQuerySchema (VObj [("limit", VStr "101")])
     = Failure [ mk_issue (too_big 100) ["limit"] None ].
Proof.
  intros fields query limit result. split; [| split; [| split]].
  - intros Hnone. unfold result, query, listMatchesQuerySchema.
    rewrite safeParse_object1. cbn [get has]. rewrite Hnone. reflexivity.
  - intros n Hdef Hn Hrange. unfold result, query.
    rewrite (listMatches_defined fields Hdef). fold query. fold limit.
    assert (Hok : coerces_within 1 100 limit = true)
      by (apply coerces_within_spec; eauto).
    apply limit_ok in Hok. rewrite Hok. reflexivity.
  - intros n Hdef Hn Hout. unfold result, query.
    rewrite (listMatches_defined fields Hdef). fold query. fold limit.
    destruct (p_issues _) as [| i iss] eqn:E.
    + apply limit_ok, coerces_within_spec in E. destruct E as [m [Hm Hr]].
      rewrite Hm in Hn. injection Hn as <-. lia.
    + split; [reflexivity |]. intros Hbig. cbn [error_of].
      pose proof (limit_too_big limit n Hn Hbig) as Hin. rewrite E in Hin.
      apply (in_map (prefixIssue "limit")), (in_map finalizeIssue) in Hin.
      exact Hin.
  - vm_compute. reflexivity.
Qed.

Lemma listMatches_limit_bounds_witness :
  safeParse listMatchesQuerySchema (VObj [("limit", VStr "50")])
  = Success (VObj [("limit", VNum (num 50))]).
Proof.
  apply (proj1 (proj2 (listMatches_limit_bounds [("limit", VStr "50")])) 50).
  - discriminate.
  - reflexivity.
  - lia.
Defined.

Lemma matchIdParam_parse fields :
  safeParse matchIdParamSchema (VObj fields)
  = match p_issues (run (z_coerce_number |> ZodNumber.int |> ZodNumber.positive)
                        (get "id" (VObj fields))) with
    | [] => Success (VObj [("id", VNum (ToNumber (get "id" (VObj fields))))])
    | iss => Failure (map finalizeIssue (map (prefixIssue "id") iss))
    end.
Proof.
  unfold matchIdParamSchema. rewrite safeParse_object1. cbv zeta.
  rewrite positive_int_value. reflexivity.
Qed.

(** C5 (amended).  The params of a match route pass exactly when [id]
    converts to an integer between 1 and 2^53 - 1, the largest safe
    integer, and the parsed [id] is the converted number; 0, a negative
    value, a non-numeric string and a missing [id] all fail. *)
Theorem matchIdParam_safe_positive : forall fields : list (string * value),
  let params := VObj fields in
  let id := get "id" params in
  let result := safeParse matchIdParamSchema params in
  (success result = true
   <-> exists n, to_int (ToNumber id) = Some n /\ 1 <= n <= Number_MAX_SAFE_INTEGER)
  /\ (success result = true -> result = Success (VObj [("id", VNum (ToNumber id))]))
  /\ success (safeParse matchIdParamSchema (VObj [("id", VStr "0")])) = false
  /\ success (safeParse matchIdParamSchema (VObj [("id", VStr "-5")])) = false
  /\ success (safeParse matchIdParamSchema (VObj [("id", VStr "abc")])) = false
  /\ success (safeParse matchIdParamSchema (VObj [])) = false.
Proof.
  intros fields params id result.
  assert (Hres : result = _) by apply matchIdParam_parse.
  fold params in Hres. fold id in Hres.
  pose proof (positive_int_ok id) as Hok.
  rewrite coerces_within_spec in Hok.
  split; [| split; [| repeat split; vm_compute; reflexivity]].
  - rewrite <- Hok, Hres. destruct (p_issues _); cbn; split; congruence.
  - rewrite Hres. destruct (p_issues _); cbn; congruence.
Qed.

Lemma matchIdParam_safe_positive_witness :
  safeParse matchIdParamSchema (VObj [("id", VStr "7")])
  = Success (VObj [("id", VNum (num 7))]).
Proof.
  apply (proj1 (proj2 (matchIdParam_safe_positive [("id", VStr "7")]))).
  reflexivity.
Defined.

(** C5, as stated, fails at [id = "9007199254740992"]: the text converts
    to the positive integer 2^53, and the params are rejected. *)
Lemma matchIdParam_rejects_unsafe_integer :
  let params := VObj [("id", VStr "9007199254740992")] in
  to_int (ToNumber (get "id" params)) = Some 9007199254740992
  /\ 1 <= 9007199254740992
  /\ success (safeParse matchIdParamSchema params) = false.
Proof. vm_compute. repeat split; congruence. Qed.

Lemma updateScore_parse fields :
  let body := VObj fields in
  safeParse updateScoreSchema body
  = match score_issues "homeScore" body ++ score_issues "awayScore" body with
    | [] => Success (VObj [("homeScore", VNum (ToNumber (get "homeScore" body)));
                           ("awayScore", VNum (ToNumber (get "awayScore" body)))])
    | iss => Failure (map finalizeIssue iss)
    end.
Proof.
  intros body.
  assert (Hrun : run updateScoreSchema body
                 = handlePropertyResult
                     (run (z_coerce_number |> ZodNumber.int |> ZodNumber.min 0)
                          (get "awayScore" body))
                     (handlePropertyResult
                        (run (z_coerce_number |> ZodNumber.int |> ZodNumber.min 0)
                             (get "homeScore" body))
                        {| p_value := VObj []; p_issues := [] |} "homeScore" body)
                     "awayScore" body)
    by reflexivity.
  unfold safeParse. rewrite Hrun. unfold handlePropertyResult.
  cbn [p_issues p_value app]. rewrite !score_value. cbn -[ToNumber]. reflexivity.
Qed.

Lemma score_issues_nil key body :
  score_issues key body = []
  <-> coerces_within 0 Number_MAX_SAFE_INTEGER (get key body) = true.
Proof.
  unfold score_issues. rewrite <- score_ok.
  destruct (p_issues _); cbn; split; congruence.
Qed.

(** C10 (amended).  updateScore converts both scores with [Number]
    before testing them: the body passes exactly when both convert to
    integers between 0 and 2^53 - 1, and the parsed scores are the
    converted numbers; a score that converts to NaN, to a negative
    number or to a number that is not an integer fails; the string "3"
    and the boolean true pass as 3 and 1. *)
Theorem updateScore_coercion : forall fields : list (string * value),
  let body := VObj fields in
  let home := ToNumber (get "homeScore" body) in
  let away := ToNumber (get "awayScore" body) in
  let result := safeParse updateScoreSchema body in
  (success result = true
   <-> exists h a, to_int home = Some h /\ to_int away = Some a
                   /\ 0 <= h <= Number_MAX_SAFE_INTEGER
                   /\ 0 <= a <= Number_MAX_SAFE_INTEGER)
  /\ (success result = true
      -> result = Success (VObj [("homeScore", VNum home); ("awayScore", VNum away)]))
  /\ (forall n, n = home \/ n = away ->
        n = NaN \/ num_lt n (num 0) = true \/ Number_isInteger n = false ->
        success result = false)
  /\ safeParse updateScoreSchema (VObj [("homeScore", VStr "3"); ("awayScore", VBool true)])
     = Success (VObj [("homeScore", VNum (num 3)); ("awayScore", VNum (num 1))]).
Proof.
  intros fields body home away result.
  assert (Hres : result = _) by apply updateScore_parse.
  cbv zeta in Hres. fold body in Hres. fold home in Hres. fold away in Hres.
  pose proof (score_issues_nil "homeScore" body) as Hh.
  pose proof (score_issues_nil "awayScore" body) as Ha.
  rewrite coerces_within_spec in Hh, Ha. fold home in Hh. fold away in Ha.
  assert (Hiff : success result = true
                 <-> score_issues "homeScore" body = [] /\ score_issues "awayScore" body = []).
  { rewrite Hres. destruct (score_issues "homeScore" body), (score_issues "awayScore" body);
      cbn; intuition congruence. }
  split; [| split; [| split]].
  - rewrite Hiff, Hh, Ha. split.
    + intros [[h [H1 H2]] [a [H3 H4]]]. exists h, a. tauto.
    + intros [h [a [H1 [H2 [H3 H4]]]]]. split; eauto.
  - rewrite Hres. destruct (_ ++ _); cbn; congruence.
  - intros n Hn Hbad. apply not_true_is_false. intros E.
    apply Hiff in E. destruct E as [E1 E2].
    apply Hh in E1. apply Ha in E2.
    destruct E1 as [h [H1 H2]], E2 as [a [H3 H4]].
    apply to_int_Fin in H1, H3.
    destruct H1 as [q1 [Hq1 [Hi1 Hf1]]], H3 as [q2 [Hq2 [Hi2 Hf2]]].
    destruct Hn as [-> | ->]; [rewrite Hq1 in Hbad | rewrite Hq2 in Hbad];
      cbn -[Qltb inject_Z] in Hbad;
      (destruct Hbad as [Hb | [Hb | Hb]]; [discriminate | | congruence]).
    + unfold Qltb in Hb. cbn [inject_Z Qnum Qden] in Hb.
      rewrite (Q_int_num q1 Hi1) in Hb. apply Z.ltb_lt in Hb. nia.
    + unfold Qltb in Hb. cbn [inject_Z Qnum Qden] in Hb.
      rewrite (Q_int_num q2 Hi2) in Hb. apply Z.ltb_lt in Hb. nia.
  - vm_compute. reflexivity.
Qed.

Lemma updateScore_coercion_witness :
  safeParse updateScoreSchema (VObj [("homeScore", VNull); ("awayScore", VStr "2")])
  = Success (VObj [("homeScore", VNum (num 0)); ("awayScore", VNum (num 2))]).
Proof.
  apply (proj1 (proj2 (updateScore_coercion [("homeScore", VNull); ("awayScore", VStr "2")]))).
  reflexivity.
Defined.

(** C10, as stated, fails at [homeScore = "9007199254740992"]: the text
    converts to the non-negative integer 2^53, and the body is
    rejected. *)
Lemma updateScore_rejects_unsafe_integer :
  let body := VObj [("homeScore", VStr "9007199254740992"); ("awayScore", VNum (num 0))] in
  to_int (ToNumber (get "homeScore" body)) = Some 9007199254740992
  /\ to_int (ToNumber (get "awayScore" body)) = Some 0
  /\ 0 <= 9007199254740992
  /\ success (safeParse updateScoreSchema body) = false.
Proof. vm_compute. repeat split; congruence. Qed.

(** ** createMatch *)

Section CreateMatchProperties.

Variable datetime : string -> bool.
Variable Date_parse : value -> number.

Lemma createMatchFields_NoDup : NoDup (map fst (createMatchFields datetime)).
Proof. cbn. repeat constructor; cbn; intuition discriminate. Qed.

Lemma createMatch_run fields :
  let body := VObj fields in
  let P := parse_fields (createMatchFields datetime) body in
  run (createMatchSchema datetime Date_parse) body
  = if aborted (p_issues P) then P
    else {| p_value := p_value P;
            p_issues := p_issues P ++ createMatchRefinement Date_parse body |}.
Proof.
  intros body P. unfold createMatchSchema, superRefine.
  rewrite run_with_check.
  change (run (z_object _) body) with P.
  cbn [runChecks when run_check].
  assert (Href : createMatchRefinement Date_parse (p_value P)
                 = createMatchRefinement Date_parse body).
  { unfold createMatchRefinement, P.
    rewrite !parse_fields_get by apply createMatchFields_NoDup.
    cbn [lookup createMatchFields String.eqb Ascii.eqb Bool.eqb].
    rewrite !datetime_value. reflexivity. }
  rewrite Href. destruct (aborted (p_issues P)); reflexivity.
Qed.

Lemma createMatch_aborted fields :
  aborted (p_issues (parse_fields (createMatchFields datetime) (VObj fields)))
  = negb (well_typed (VObj fields)).
Proof.
  rewrite parse_fields_issues.
  cbn [flat_map createMatchFields]. unfold field_issues. cbn [fst snd].
  rewrite !aborted_app, !aborted_map_prefix, !name_aborted, !datetime_aborted,
    !optional_score_aborted.
  cbn [aborted existsb]. unfold well_typed.
  rewrite !negb_andb, orb_false_r, !orb_assoc. reflexivity.
Qed.

Lemma createMatch_refinement_root i :
  forall body, In i (createMatchRefinement Date_parse body) -> path i = [].
Proof.
  intros body. unfold createMatchRefinement.
  repeat match goal with
         | |- context [if ?c then _ else _] => destruct c
         end; cbn; intuition (subst; reflexivity).
Qed.

Lemma createMatchFields_root_paths :
  Forall (fun entry => root_paths (snd entry)) (createMatchFields datetime).
Proof.
  repeat constructor; cbn [snd]; intros v i.
  1-3: apply name_root_paths.
  1-2: apply datetime_root_paths.
  1-2: apply optional_score_root_paths.
Qed.

Lemma createMatch_field_ok key el :
  lookup key (createMatchFields datetime) = Some el ->
  forall v, p_issues (run el v) = [] <-> field_rule datetime key v = true.
Proof.
  unfold field_rule. cbn [lookup createMatchFields].
  repeat match goal with
         | |- context [String.eqb key ?k] =>
             destruct (String.eqb key k); cbn [orb];
             [ intros [= <-] v;
               first [ apply name_ok | apply datetime_ok | apply optional_score_ok ] | ]
         end.
  discriminate.
Qed.

End CreateMatchProperties.

(** A field issue sits at path [[key]] exactly when the schema of [key]
    raised an issue on the value of that key. *)
Lemma field_issue_at shape body key :
  Forall (fun entry => root_paths (snd entry)) shape ->
  NoDup (map fst shape) ->
  (exists raw, In raw (flat_map (field_issues body) shape) /\ path raw = [key])
  <-> (exists el, lookup key shape = Some el /\ p_issues (run el (get key body)) <> []).
Proof.
  intros Hroot Hnd. induction shape as [| [k el] shape IH].
  - cbn. split; [intros [raw [[] _]] | intros [el [[=] _]]].
  - inversion Hroot as [| ? ? Hel Hroot']; subst.
    inversion Hnd as [| ? ? Hnotin Hnd']; subst.
    specialize (IH Hroot' Hnd'). cbn [snd] in Hel.
    cbn [flat_map lookup]. split.
    + intros [raw [Hin Hpath]]. apply in_app_or in Hin. destruct Hin as [Hin | Hin].
      * unfold field_issues in Hin. cbn [fst snd] in Hin.
        apply in_map_iff in Hin. destruct Hin as [r0 [<- Hr0]].
        cbn [prefixIssue path] in Hpath. injection Hpath as -> _.
        rewrite String.eqb_refl. exists el. split; [reflexivity |].
        intros E. rewrite E in Hr0. destruct Hr0.
      * destruct (proj1 IH (ex_intro _ raw (conj Hin Hpath))) as [el' [Hl Hne]].
        destruct (String.eqb_spec key k) as [-> | _].
        -- exfalso. apply Hnotin. clear - Hl.
           induction shape as [| [k0 e0] shape IHs]; [discriminate |].
           cbn [lookup] in Hl. cbn [map fst In].
           destruct (String.eqb_spec k k0); [left; congruence | right; auto].
        -- eauto.
    + intros [el' [Hl Hne]]. destruct (String.eqb_spec key k) as [-> | Hneq].
      * injection Hl as <-.
        destruct (p_issues (run el (get k body))) as [| r0 rest] eqn:E; [congruence |].
        exists (prefixIssue k r0). split.
        -- apply in_or_app. left. unfold field_issues. cbn [fst snd].
           rewrite E. left. reflexivity.
        -- cbn [prefixIssue path]. rewrite (Hel (get k body) r0); [reflexivity |].
           rewrite E. left. reflexivity.
      * destruct (proj2 IH (ex_intro _ el' (conj Hl Hne))) as [raw [Hin Hpath]].
        exists raw. split; [apply in_or_app; right; exact Hin | exact Hpath].
Qed.

Lemma safeParse_error t v :
  error_of (safeParse t v) = map finalizeIssue (p_issues (run t v)).
Proof. unfold safeParse. destruct (p_issues (run t v)); reflexivity. Qed.

Lemma safeParse_success t v :
  success (safeParse t v) = true <-> p_issues (run t v) = [].
Proof. unfold safeParse. destruct (p_issues (run t v)); cbn; split; congruence. Qed.

Lemma safeParse_data t v :
  p_issues (run t v) = [] -> safeParse t v = Success (p_value (run t v)).
Proof. unfold safeParse. intros ->. reflexivity. Qed.

Section CreateMatchTheorems.

Variable datetime : string -> bool.
Variable Date_parse : value -> number.

Abbreviation schema := (createMatchSchema datetime Date_parse).
Abbreviation field_issues_of body := (flat_map (field_issues body) (createMatchFields datetime)).

Lemma createMatch_issues fields :
  let body := VObj fields in
  p_issues (run schema body)
  = field_issues_of body
    ++ (if well_typed body then createMatchRefinement Date_parse body else []).
Proof.
  intros body. unfold body. rewrite createMatch_run. cbv zeta.
  rewrite createMatch_aborted.
  destruct (well_typed (VObj fields)); cbn [negb p_issues];
    rewrite parse_fields_issues; [reflexivity | symmetry; apply app_nil_r].
Qed.

Lemma createMatch_field_issues_nil fields :
  let body := VObj fields in
  nonempty_string (get "sport" body) = true ->
  nonempty_string (get "homeTeam" body) = true ->
  nonempty_string (get "awayTeam" body) = true ->
  iso_timestamp datetime (get "startTime" body) = true ->
  iso_timestamp datetime (get "endTime" body) = true ->
  optional_score (get "homeScore" body) = true ->
  optional_score (get "awayScore" body) = true ->
  field_issues_of body = [] /\ well_typed body = true.
Proof.
  intros body Hs Hh Ha Hst Het Hhs Has. split.
  - cbn [flat_map createMatchFields]. unfold field_issues. cbn [fst snd].
    rewrite (proj2 (name_ok _ _) Hs), (proj2 (name_ok _ _) Hh),
      (proj2 (name_ok _ _) Ha), (proj2 (datetime_ok _ _) Hst),
      (proj2 (datetime_ok _ _) Het), (proj2 (optional_score_ok _) Hhs),
      (proj2 (optional_score_ok _) Has).
    reflexivity.
  - unfold well_typed, well_typed_score.
    assert (Hstr : forall v, nonempty_string v = true -> is_string v = true)
      by (intros [] ; cbn; congruence).
    assert (Hiso : forall v, iso_timestamp datetime v = true -> is_string v = true)
      by (intros [] ; cbn; congruence).
    assert (Hsc : forall v, optional_score v = true ->
                            is_undefined v || Number_isInteger (ToNumber v) = true).
    { intros v. unfold optional_score, coerces_within.
      destruct (is_undefined v); [reflexivity |]. cbn [orb].
      destruct (to_int (ToNumber v)) as [n |] eqn:E; [| discriminate].
      apply to_int_Fin in E. destruct E as [q [-> [Hi _]]]. intros _. exact Hi. }
    rewrite (Hstr _ Hs), (Hstr _ Hh), (Hstr _ Ha), (Hiso _ Hst), (Hiso _ Het),
      (Hsc _ Hhs), (Hsc _ Has).
    reflexivity.
Qed.

(** A body whose fields each pass their own rule and whose end follows
    its start passes validation. *)
Lemma createMatch_accepts fields :
  let body := VObj fields in
  nonempty_string (get "sport" body) = true ->
  nonempty_string (get "homeTeam" body) = true ->
  nonempty_string (get "awayTeam" body) = true ->
  iso_timestamp datetime (get "startTime" body) = true ->
  iso_timestamp datetime (get "endTime" body) = true ->
  optional_score (get "homeScore" body) = true ->
  optional_score (get "awayScore" body) = true ->
  num_lt (Date_parse (get "startTime" body)) (Date_parse (get "endTime" body)) = true ->
  success (safeParse schema body) = true.
Proof.
  intros body Hs Hh Ha Hst Het Hhs Has Hlt. subst body.
  apply safeParse_success. rewrite createMatch_issues. cbv zeta.
  destruct (createMatch_field_issues_nil fields Hs Hh Ha Hst Het Hhs Has) as [-> ->].
  unfold createMatchRefinement.
  destruct (num_lt_spec _ _ Hlt) as [-> [-> ->]]. reflexivity.
Qed.

(** A missing [endTime] is reported as an issue of its own. *)
Lemma createMatch_missing_endTime fields :
  let body := VObj fields in
  get "endTime" body = VUndefined ->
  In (mk_raw (invalid_type "string") ["endTime"] None false) (p_issues (run schema body)).
Proof.
  intros body Hend. unfold body. rewrite createMatch_issues. cbv zeta.
  apply in_or_app. left.
  cbn [flat_map createMatchFields]. unfold field_issues. cbn [fst snd].
  fold body. rewrite Hend.
  do 4 (apply in_or_app; right). apply in_or_app. left.
  cbn. left. reflexivity.
Qed.

(** C1 (amended).  A create-match body that leaves [endTime] out fails
    validation, whatever its other fields, with an invalid-type issue at
    path [endTime]: the schema requires the field.  A body with
    non-empty [sport], [homeTeam] and [awayTeam], valid date-times for
    [startTime] and [endTime], scores absent or valid, and an end
    strictly after its start passes. *)
Theorem createMatch_requires_endTime : forall fields : list (string * value),
  let body := VObj fields in
  let result := safeParse schema body in
  (get "endTime" body = VUndefined ->
   success result = false
   /\ In (mk_issue (invalid_type "string") ["endTime"] None) (error_of result))
  /\ (nonempty_string (get "sport" body) = true ->
      nonempty_string (get "homeTeam" body) = true ->
      nonempty_string (get "awayTeam" body) = true ->
      iso_timestamp datetime (get "startTime" body) = true ->
      iso_timestamp datetime (get "endTime" body) = true ->
      optional_score (get "homeScore" body) = true ->
      optional_score (get "awayScore" body) = true ->
      num_lt (Date_parse (get "startTime" body)) (Date_parse (get "endTime" body)) = true ->
      success result = true).
Proof.
  intros fields body result. split.
  - intros Hend. pose proof (createMatch_missing_endTime fields Hend) as Hin.
    fold body in Hin. split.
    + apply not_true_is_false. intros E. apply safeParse_success in E.
      fold body in E. rewrite E in Hin. destruct Hin.
    + unfold result. rewrite safeParse_error.
      apply (in_map finalizeIssue) in Hin. exact Hin.
  - apply createMatch_accepts.
Qed.

(** C9.  The test on [sport], [homeTeam] and [awayTeam] is on the length
    of the string alone: whenever the three are strings of length at
    least 1 and the rest of the body is valid, validation succeeds and
    hands the three strings back unchanged; in particular a body whose
    three names are a single space each is accepted. *)
Theorem createMatch_whitespace_names : forall (fields : list (string * value))
                                              (sport homeTeam awayTeam : string),
  let body := VObj fields in
  let result := safeParse schema body in
  get "sport" body = VStr sport ->
  get "homeTeam" body = VStr homeTeam ->
  get "awayTeam" body = VStr awayTeam ->
  (1 <= String.length sport)%nat ->
  (1 <= String.length homeTeam)%nat ->
  (1 <= String.length awayTeam)%nat ->
  iso_timestamp datetime (get "startTime" body) = true ->
  iso_timestamp datetime (get "endTime" body) = true ->
  optional_score (get "homeScore" body) = true ->
  optional_score (get "awayScore" body) = true ->
  num_lt (Date_parse (get "startTime" body)) (Date_parse (get "endTime" body)) = true ->
  success result = true
  /\ (forall data, result = Success data ->
        get "sport" data = VStr sport /\ get "homeTeam" data = VStr homeTeam
        /\ get "awayTeam" data = VStr awayTeam)
  /\ safeParse (createMatchSchema Reference.datetime Reference.Date_parse)
               (VObj blank_names)
     = Success (VObj blank_names).
Proof.
  intros fields sport homeTeam awayTeam body result Hs Hh Ha Ls Lh La Hst Het Hhs Has Hlt.
  cut (success result = true
       /\ (forall data, result = Success data ->
             get "sport" data = VStr sport /\ get "homeTeam" data = VStr homeTeam
             /\ get "awayTeam" data = VStr awayTeam));
    [intros [H1 H2]; split; [exact H1 | split; [exact H2 | vm_compute; reflexivity]] |].
  assert (Hne : forall v s, v = VStr s -> (1 <= String.length s)%nat ->
                            nonempty_string v = true).
  { intros v s -> L. cbn. apply Z.leb_le. lia. }
  assert (Hok : success result = true).
  { apply createMatch_accepts; eauto. }
  split; [exact Hok |].
  intros data Hdata. apply safeParse_success in Hok.
  unfold result in Hdata. rewrite (safeParse_data _ _ Hok) in Hdata.
  injection Hdata as <-. unfold body. rewrite createMatch_run. cbv zeta.
  assert (Hv : forall P more,
             p_value (if aborted (p_issues P) then P
                      else {| p_value := p_value P; p_issues := more |}) = p_value P)
    by (intros P more; destruct (aborted (p_issues P)); reflexivity).
  rewrite Hv. rewrite !parse_fields_get by apply createMatchFields_NoDup.
  cbn [lookup createMatchFields String.eqb Ascii.eqb Bool.eqb].
  rewrite !name_value. fold body. auto.
Qed.


Lemma createMatch_end_issue fields :
  let body := VObj fields in
  num_le (Date_parse (get "endTime" body)) (Date_parse (get "startTime" body)) = true ->
  In (addIssue custom "endTime must be after startTime")
     (createMatchRefinement Date_parse body).
Proof.
  intros body Hle. unfold createMatchRefinement. fold body.
  destruct (num_le_not_NaN _ _ Hle) as [-> ->]. rewrite Hle. cbn. auto.
Qed.

Lemma createMatch_ill_typed fields :
  well_typed (VObj fields) = false -> field_issues_of (VObj fields) <> [].
Proof.
  intros Hwt E. pose proof (createMatch_aborted datetime fields) as Hab.
  rewrite parse_fields_issues, E, Hwt in Hab. discriminate Hab.
Qed.

(** C2 (amended).  A create-match body whose [startTime] and [endTime]
    both parse as timestamps with the end not after the start, equality
    included, fails validation; when no field of the body is missing or
    of the wrong type, the error carries the issue "endTime must be
    after startTime", raised on the body as a whole (its path is
    empty). *)
Theorem createMatch_end_not_after_start : forall fields : list (string * value),
  let body := VObj fields in
  let result := safeParse schema body in
  num_le (Date_parse (get "endTime" body)) (Date_parse (get "startTime" body)) = true ->
  success result = false
  /\ (well_typed body = true ->
      In (mk_issue custom [] (Some "endTime must be after startTime")) (error_of result)).
Proof.
  intros fields body result Hle.
  pose proof (createMatch_end_issue fields Hle) as Hin. fold body in Hin.
  pose proof (createMatch_issues fields) as Hiss. cbv zeta in Hiss. fold body in Hiss.
  split.
  - apply not_true_is_false. intros E. apply safeParse_success in E.
    rewrite Hiss in E. apply app_eq_nil in E. destruct E as [EF ER].
    destruct (well_typed body) eqn:Hwt.
    + rewrite ER in Hin. destruct Hin.
    + exact (createMatch_ill_typed fields Hwt EF).
  - intros Hwt. unfold result. rewrite safeParse_error, Hiss, Hwt.
    apply (in_map finalizeIssue) in Hin.
    rewrite map_app. apply in_or_app. right. exact Hin.
Qed.

Lemma createMatch_keys_lookup key :
  In key createMatch_keys -> exists el, lookup key (createMatchFields datetime) = Some el.
Proof.
  cbn. intros H. repeat (destruct H as [<- | H]; [cbn; eauto |]). destruct H.
Qed.

(** C4 (amended).  The error of createMatch has an issue at path [[f]] for
    exactly those fields [f] whose own rule the body violates, all of
    them together and not just the first.  The checks across fields (a
    start or an end that is not a date, an end not after the start) are
    reported with them when no field is missing or of the wrong type,
    and are skipped otherwise: every issue then sits on a field.  An
    empty [sport], an empty [homeTeam] and an end before the start
    appear in one error. *)
Theorem createMatch_reports_violations : forall fields : list (string * value),
  let body := VObj fields in
  let error := error_of (safeParse schema body) in
  let start := Date_parse (get "startTime" body) in
  let end_ := Date_parse (get "endTime" body) in
  (forall key, In key createMatch_keys ->
     (field_rule datetime key (get key body) = false
      <-> exists i, In i error /\ i_path i = [key]))
  /\ (well_typed body = true ->
      (Number_isNaN start = true ->
       In (mk_issue custom [] (Some "startTime must be a valid ISO date")) error)
      /\ (Number_isNaN end_ = true ->
          In (mk_issue custom [] (Some "endTime must be a valid ISO date")) error)
      /\ (num_le end_ start = true ->
          In (mk_issue custom [] (Some "endTime must be after startTime")) error))
  /\ (well_typed body = false -> forall i, In i error -> i_path i <> [])
  /\ safeParse (createMatchSchema Reference.datetime Reference.Date_parse)
               (VObj [ ("sport", VStr ""); ("homeTeam", VStr "");
                       ("awayTeam", VStr "Team B");
                       ("startTime", VStr "2026-03-01T15:00:00Z");
                       ("endTime", VStr "2026-03-01T14:00:00Z") ])
     = Failure [ mk_issue (too_small 1) ["sport"] (Some "sport is required");
                 mk_issue (too_small 1) ["homeTeam"] (Some "homeTeam is required");
                 mk_issue custom [] (Some "endTime must be after startTime") ].
Proof.
  intros fields body error start end_.
  pose proof (createMatch_issues fields) as Hiss. cbv zeta in Hiss. fold body in Hiss.
  assert (Herr : error = map finalizeIssue
                   (field_issues_of body
                    ++ (if well_typed body
                        then createMatchRefinement Date_parse body else []))).
  { unfold error. rewrite safeParse_error, Hiss. reflexivity. }
  split; [| split; [| split; [| vm_compute; reflexivity]]].
  - intros key Hkey. destruct (createMatch_keys_lookup key Hkey) as [el Hel].
    pose proof (createMatch_field_ok datetime key el Hel (get key body)) as Hok.
    pose proof (field_issue_at (createMatchFields datetime) body key
                  (createMatchFields_root_paths datetime)
                  (createMatchFields_NoDup datetime)) as Hat.
    assert (Hviol : field_rule datetime key (get key body) = false
                    <-> p_issues (run el (get key body)) <> []).
    { rewrite Hok. destruct (field_rule datetime key (get key body)); split; congruence. }
    rewrite Hviol. split.
    + intros Hne. destruct (proj2 Hat (ex_intro _ el (conj Hel Hne))) as [raw [Hin Hpath]].
      exists (finalizeIssue raw). split; [| exact Hpath].
      rewrite Herr. apply in_map, in_or_app. left. exact Hin.
    + intros [i [Hin Hpath]]. rewrite Herr in Hin.
      apply in_map_iff in Hin. destruct Hin as [raw [<- Hin]].
      cbn [finalizeIssue i_path] in Hpath.
      apply in_app_or in Hin. destruct Hin as [Hin | Hin].
      * destruct (proj1 Hat (ex_intro _ raw (conj Hin Hpath))) as [el' [Hel' Hne]].
        rewrite Hel in Hel'. injection Hel' as <-. exact Hne.
      * destruct (well_typed body); [| destruct Hin].
        apply createMatch_refinement_root in Hin. congruence.
  - intros Hwt. rewrite Hwt in Herr.
    assert (Hin : forall raw, In raw (createMatchRefinement Date_parse body) ->
                              In (finalizeIssue raw) error).
    { intros raw H. rewrite Herr. apply in_map, in_or_app. right. exact H. }
    unfold createMatchRefinement in Hin. fold start in Hin. fold end_ in Hin.
    repeat split.
    + intros Hs. apply (Hin (addIssue custom "startTime must be a valid ISO date")).
      rewrite Hs. cbn. auto.
    + intros He. apply (Hin (addIssue custom "endTime must be a valid ISO date")).
      rewrite He. apply in_or_app. right. cbn. auto.
    + intros Hle. apply (Hin (addIssue custom "endTime must be after startTime")).
      destruct (num_le_not_NaN _ _ Hle) as [-> ->]. rewrite Hle. cbn. auto.
  - intros Hwt i Hin Hpath. rewrite Herr, Hwt, app_nil_r in Hin.
    apply in_map_iff in Hin. destruct Hin as [raw [<- Hin]].
    cbn [finalizeIssue i_path] in Hpath.
    apply in_flat_map in Hin. destruct Hin as [[k el] [_ Hin]].
    unfold field_issues in Hin. cbn [fst snd] in Hin.
    apply in_map_iff in Hin. destruct Hin as [r0 [<- _]].
    discriminate Hpath.
Qed.

End CreateMatchTheorems.

(** *** createMatch on concrete requests *)

(** C1, as stated, fails on the request of the spec's own scenario: the
    three names are non-empty, [startTime] is a valid date-time,
    [endTime] is left out, and validation fails. *)
Lemma createMatch_without_endTime_fails :
  let body := VObj sample_match in
  nonempty_string (get "sport" body) = true
  /\ nonempty_string (get "homeTeam" body) = true
  /\ nonempty_string (get "awayTeam" body) = true
  /\ iso_timestamp Reference.datetime (get "startTime" body) = true
  /\ has "endTime" body = false
  /\ safeParse (createMatchSchema Reference.datetime Reference.Date_parse) body
     = Failure [ mk_issue (invalid_type "string") ["endTime"] None ].
Proof. vm_compute. repeat split; reflexivity. Qed.

Lemma createMatch_requires_endTime_witness :
  (success (safeParse (createMatchSchema Reference.datetime Reference.Date_parse)
                      (VObj sample_match)) = false
   /\ In (mk_issue (invalid_type "string") ["endTime"] None)
         (error_of (safeParse (createMatchSchema Reference.datetime Reference.Date_parse)
                              (VObj sample_match))))
  /\ success (safeParse (createMatchSchema Reference.datetime Reference.Date_parse)
                        (VObj (sample_match
                                 ++ [("endTime", VStr "2026-03-01T17:00:00Z")]))) = true.
Proof.
  split.
  - apply (proj1 (createMatch_requires_endTime Reference.datetime Reference.Date_parse
                    sample_match)).
    reflexivity.
  - apply (proj2 (createMatch_requires_endTime Reference.datetime Reference.Date_parse
                    (sample_match ++ [("endTime", VStr "2026-03-01T17:00:00Z")])));
      vm_compute; reflexivity.
Defined.

Lemma createMatch_whitespace_names_witness :
  success (safeParse (createMatchSchema Reference.datetime Reference.Date_parse)
                     (VObj blank_names)) = true.
Proof.
  apply (createMatch_whitespace_names Reference.datetime Reference.Date_parse
           blank_names " " " " " ");
    try reflexivity; try (cbn; lia); vm_compute; reflexivity.
Defined.

(** C2, as stated, fails on a body whose end equals its start and whose
    [sport] is missing: validation fails, and the one issue of the error
    is about [sport]; nothing in it mentions [endTime]. *)
Lemma createMatch_end_issue_skipped :
  let body := VObj [ ("homeTeam", VStr "Team A"); ("awayTeam", VStr "Team B");
                     ("startTime", VStr "2026-03-01T15:00:00Z");
                     ("endTime", VStr "2026-03-01T15:00:00Z") ] in
  let result := safeParse (createMatchSchema Reference.datetime Reference.Date_parse)
                          body in
  Reference.Date_parse (get "startTime" body) = num 1772377200000
  /\ Reference.Date_parse (get "endTime" body) = num 1772377200000
  /\ result = Failure [ mk_issue (invalid_type "string") ["sport"] None ]
  /\ ~ In (mk_issue custom [] (Some "endTime must be after startTime"))
          (error_of result).
Proof.
  vm_compute. repeat split; try reflexivity.
  intros [H | []]. discriminate H.
Qed.

Lemma createMatch_end_not_after_start_witness :
  let body := VObj (sample_match ++ [("endTime", VStr "2026-03-01T15:00:00Z")]) in
  success (safeParse (createMatchSchema Reference.datetime Reference.Date_parse) body)
  = false
  /\ In (mk_issue custom [] (Some "endTime must be after startTime"))
        (error_of (safeParse (createMatchSchema Reference.datetime Reference.Date_parse)
                             body)).
Proof.
  intros body.
  destruct (createMatch_end_not_after_start Reference.datetime Reference.Date_parse
              (sample_match ++ [("endTime", VStr "2026-03-01T15:00:00Z")]))
    as [Hfail Hissue].
  - vm_compute. reflexivity.
  - split; [exact Hfail | apply Hissue; reflexivity].
Defined.

(** C4, as stated, fails on a body with two violations, a score that is
    not an integer and an end before the start: the error reports the
    score alone. *)
Lemma createMatch_time_violation_unreported :
  let body := VObj (sample_match ++ [ ("endTime", VStr "2026-03-01T14:00:00Z");
                                      ("homeScore", VNum (Fin (5 # 2))) ]) in
  let result := safeParse (createMatchSchema Reference.datetime Reference.Date_parse)
                          body in
  num_le (Reference.Date_parse (get "endTime" body))
         (Reference.Date_parse (get "startTime" body)) = true
  /\ result = Failure [ mk_issue (invalid_type "int") ["homeScore"] None ]
  /\ ~ In (mk_issue custom [] (Some "endTime must be after startTime"))
          (error_of result).
Proof.
  vm_compute. repeat split; try reflexivity.
  intros [H | []]. discriminate H.
Qed.

Lemma createMatch_reports_violations_witness :
  let body := VObj [ ("sport", VStr ""); ("homeTeam", VStr "Team A");
                     ("awayTeam", VStr "Team B");
                     ("startTime", VStr "2026-03-01T15:00:00Z");
                     ("endTime", VStr "2026-03-01T14:00:00Z") ] in
  let error := error_of (safeParse (createMatchSchema Reference.datetime
                                                      Reference.Date_parse) body) in
  (exists i, In i error /\ i_path i = ["sport"])
  /\ In (mk_issue custom [] (Some "endTime must be after startTime")) error.
Proof.
  intros body error.
  destruct (createMatch_reports_violations Reference.datetime Reference.Date_parse
              [ ("sport", VStr ""); ("homeTeam", VStr "Team A");
                ("awayTeam", VStr "Team B");
                ("startTime", VStr "2026-03-01T15:00:00Z");
                ("endTime", VStr "2026-03-01T14:00:00Z") ])
    as [Hfields [Htimes _]].
  split.
  - apply (Hfields "sport"); [cbn; auto | reflexivity].
  - apply Htimes; reflexivity.
Defined.

(** ** Storage *)

Lemma createMatch_row fields now db db' r :
  createMatch fields now db = (db', Ok r) ->
  r = build_row matches (matchValues fields) now (matches_id_seq db)
  /\ matches_rows db' = matches_rows db ++ [r]
  /\ check_row (columns matches) r = None
  /\ check_unique matches r (matches_rows db) = None.
Proof.
  unfold createMatch, insert_row.
  destruct (check_row _ _) eqn:Hc; [intros [=] |].
  destruct (check_unique _ _ _) eqn:Hu; [intros [=] |].
  intros [= <- <-]. cbn [matches_rows]. auto.
Qed.

(** C6.  A match that [createMatch] stores has the status and the scores
    it was given, and [scheduled], 0 and 0 for those left out; and a
    match given only its sport, teams and start time is created, with
    the next id, status [scheduled] and both scores 0. *)
Theorem createMatch_defaults : forall (fields : NewMatch) (now : Z) (db : database),
  (forall db' r, createMatch fields now db = (db', Ok r) ->
     In r (matches_rows db')
     /\ field "status" r = Text (with_default "scheduled" (f_status fields))
     /\ field "homeScore" r = Int (with_default 0 (f_homeScore fields))
     /\ field "awayScore" r = Int (with_default 0 (f_awayScore fields)))
  /\ (forall sport homeTeam awayTeam startTime,
        fields = {| f_sport := Some sport; f_homeTeam := Some homeTeam;
                    f_awayTeam := Some awayTeam; f_status := None;
                    f_startTime := Some startTime; f_endTime := None;
                    f_homeScore := None; f_awayScore := None |} ->
        1 <= matches_id_seq db <= int4_max ->
        exists_with "id" (Int (matches_id_seq db)) (matches_rows db) = false ->
        let r := [ ("id", Int (matches_id_seq db)); ("sport", Text sport);
                   ("homeTeam", Text homeTeam); ("awayTeam", Text awayTeam);
                   ("status", Text "scheduled"); ("startTime", Timestamp startTime);
                   ("endTime", Null); ("homeScore", Int 0); ("awayScore", Int 0);
                   ("createdAt", Timestamp now) ] in
        exists db', createMatch fields now db = (db', Ok r)
                    /\ matches_rows db' = matches_rows db ++ [r]).
Proof.
  intros fields now db. split.
  - intros db' r H. apply createMatch_row in H. destruct H as [-> [Hrows _]].
    rewrite Hrows. split; [apply in_or_app; right; left; reflexivity |].
    cbn. destruct (f_status fields), (f_homeScore fields), (f_awayScore fields);
      cbn; auto.
  - intros sport homeTeam awayTeam startTime -> Hseq Hfresh r.
    unfold createMatch, insert_row.
    assert (Hr : build_row matches
                   (matchValues {| f_sport := Some sport; f_homeTeam := Some homeTeam;
                                   f_awayTeam := Some awayTeam; f_status := None;
                                   f_startTime := Some startTime; f_endTime := None;
                                   f_homeScore := None; f_awayScore := None |})
                   now (matches_id_seq db) = r) by reflexivity.
    rewrite Hr.
    assert (Hc : check_row (columns matches) r = None).
    { unfold r. cbn -[int4_min int4_max Z.leb]. unfold int4_max, int4_min in *.
      destruct (Z.leb_spec (- 2 ^ 31) (matches_id_seq db)); [| lia].
      destruct (Z.leb_spec (matches_id_seq db) (2 ^ 31 - 1)); [| lia].
      reflexivity. }
    assert (Hu : check_unique matches r (matches_rows db) = None).
    { unfold check_unique. cbn [primary_keys matches columns filter map fst snd primary
                                  primaryKey serial notNull default defaultNow Pg.text
                                  Pg.timestamp Pg.integer enumColumn plain].
      unfold r at 1. cbn [field lookup String.eqb Ascii.eqb Bool.eqb].
      rewrite Hfresh. reflexivity. }
    rewrite Hc, Hu. eexists. split; reflexivity.
Qed.

Lemma createMatch_defaults_witness :
  exists db',
    createMatch {| f_sport := Some "football"; f_homeTeam := Some "Team A";
                   f_awayTeam := Some "Team B"; f_status := None;
                   f_startTime := Some 1772377200000; f_endTime := None;
                   f_homeScore := None; f_awayScore := None |}
                1772300000000 empty_database
    = (db', Ok (hd [] (matches_rows sample_database)))
    /\ matches_rows db' = matches_rows sample_database.
Proof.
  apply (proj2 (createMatch_defaults _ 1772300000000 empty_database)
               "football" "Team A" "Team B" 1772377200000).
  - reflexivity.
  - cbn. unfold int4_max. lia.
  - reflexivity.
Defined.

(** *** Commentary round trip *)









(** The payload of the test comes back with its keys in the order of the
    store, and equal to what was written. *)
Example jsonb_in_complexMetadata :
  jsonb_param complexMetadata
  = Some (Jsonb (VObj [ ("stats", VObj [ ("saves", VNum (num 3));
                                         ("shots", VNum (num 5)) ]);
                        ("player", VObj [ ("id", VNum (num 10));
                                          ("name", VStr "John Doe") ]);
                        ("coordinates", VObj [ ("x", VNum (Fin (91 # 2)));
                                               ("y", VNum (Fin (151 # 5))) ]) ])).
Proof. reflexivity. Qed.

(** A payload that is not a JSON value is not read back as written: a
    number that is not finite comes back as [null], a property that is
    [undefined] does not come back. *)
Example jsonb_param_not_json :
  jsonb_param (VObj [ ("xG", VNum NaN); ("note", VUndefined); ("shots", VNum (num 5)) ])
  = Some (Jsonb (VObj [ ("xG", VNull); ("shots", VNum (num 5)) ])).
Proof. reflexivity. Qed.

Lemma existsb_pointwise {A : Type} (f g : A -> bool) (l : list A) :
  (forall x, f x = g x) -> existsb f l = existsb g l.
Proof.
  intros H. induction l as [| x l IH]; cbn; [reflexivity |]. rewrite H, IH. reflexivity.
Qed.

(** The foreign key of [commentary] asks for the match of the entry. *)
Lemma check_foreign_commentary (r : row) (matchId : Z) (store : tables) :
  field "matchId" r = Int matchId ->
  check_foreign commentary r store
  = if exists_with "id" (Int matchId) (store "matches") then None
    else Some (foreign_key_violation "match_id").
Proof.
  intros H. unfold check_foreign, commentary. cbn [foreignKeys filter].
  unfold fk_holds. cbn [fk_columns foreignTable existsb]. rewrite H. cbn [is_null orb].
  assert (E : existsb (referenced_by (foreignKey ["matchId"] "matches" ["id"]) r)
                      (store "matches")
              = exists_with "id" (Int matchId) (store "matches")).
  { unfold exists_with. apply existsb_pointwise. intros x.
    unfold referenced_by. cbn [fk_columns foreignColumns combine forallb].
    rewrite H. apply andb_true_r. }
  rewrite E. destruct (exists_with "id" (Int matchId) (store "matches")); reflexivity.
Qed.






Lemma field_update key key' v (r : row) :
  field key (update key' v r) = if String.eqb key key' then v else field key r.
Proof. unfold field. rewrite lookup_update. destruct (String.eqb key key'); reflexivity. Qed.

Lemma set_scores_ok h a r : match_ok r -> 0 <= h -> 0 <= a -> match_ok (set_scores h a r).
Proof.
  intros [[s [Hs Hin]] _] Hh Ha. unfold match_ok, set_scores.
  rewrite !field_update. cbn [String.eqb Ascii.eqb Bool.eqb]. eauto 10.
Qed.

Lemma parse_non_object t v :
  (forall fields, v <> VObj fields) ->
  forall shape, success (safeParse (with_check t (z_object shape)) v) = false.
Proof.
  intros Hv shape. apply not_true_is_false. intros E. apply safeParse_success in E.
  rewrite run_with_check in E.
  destruct (runChecks_issues_prefix (run (z_object shape) v) [t]) as [more Hm].
  rewrite E in Hm. symmetry in Hm. apply app_eq_nil in Hm. destruct Hm as [Hm _].
  destruct v; try discriminate Hm. eapply Hv. reflexivity.
Qed.


Lemma Qltb_int_r z q : Q_is_int q = true -> Qltb q (inject_Z z) = (Q_floor q <? z).
Proof.
  intros H. unfold Qltb. cbn [inject_Z Qnum Qden]. rewrite (Q_int_num q H).
  destruct (Z.ltb_spec (Q_floor q) z); [apply Z.ltb_lt | apply Z.ltb_ge]; nia.
Qed.

(** A value that converts to an integer within [lo, hi], [0 <= lo], does
    not convert to a negative number. *)
Lemma coerces_within_not_negative lo hi v :
  0 <= lo -> coerces_within lo hi v = true ->
  num_lt (ToNumber v) (num 0) = false.
Proof.
  intros Hlo H. apply coerces_within_spec in H. destruct H as [n [Hn Hr]].
  apply to_int_Fin in Hn. destruct Hn as [q [-> [Hi Hf]]].
  cbn [num_lt num]. rewrite (Qltb_int_r 0 q Hi). apply Z.ltb_ge. lia.
Qed.

Lemma object_not_object shape v :
  (forall fields, v <> VObj fields) -> p_issues (run (z_object shape) v) <> [].
Proof. intros Hv. destruct v; try discriminate. exfalso. eapply Hv. reflexivity. Qed.

Lemma updateScore_scores_nonneg body data key n :
  safeParse updateScoreSchema body = Success data ->
  key = "homeScore" \/ key = "awayScore" ->
  int_of (get key data) = Some n -> 0 <= n.
Proof.
  intros Hparse Hkey Hint.
  destruct body as [| | | | | | fields]; try discriminate Hparse.
  rewrite updateScore_parse in Hparse. cbv zeta in Hparse.
  destruct (_ ++ _) eqn:E; [| discriminate Hparse].
  apply app_eq_nil in E. destruct E as [Eh Ea].
  apply score_issues_nil, coerces_within_spec in Eh, Ea.
  destruct Eh as [h [Hh Hhr]], Ea as [a [Ha Har]].
  injection Hparse as <-.
  destruct Hkey as [-> | ->]; cbn -[ToNumber] in Hint, Hh, Ha.
  - assert (n = h) by congruence. lia.
  - assert (n = a) by congruence. lia.
Qed.

Lemma createMatch_data datetime Date_parse fields :
  p_value (run (createMatchSchema datetime Date_parse) (VObj fields))
  = p_value (parse_fields (createMatchFields datetime) (VObj fields)).
Proof.
  rewrite createMatch_run. cbv zeta.
  destruct (aborted (p_issues (parse_fields (createMatchFields datetime) (VObj fields))));
    reflexivity.
Qed.

Section Invariant.

Variable datetime : string -> bool.
Variable Date_parse : value -> number.
Variable cascade : bool.

Lemma createMatch_success_fields fields key el :
  success (safeParse (createMatchSchema datetime Date_parse) (VObj fields)) = true ->
  lookup key (createMatchFields datetime) = Some el ->
  p_issues (run el (get key (VObj fields))) = [].
Proof.
  intros Hsucc Hel. apply safeParse_success in Hsucc.
  rewrite createMatch_issues in Hsucc. cbv zeta in Hsucc.
  apply app_eq_nil in Hsucc. destruct Hsucc as [HF _].
  destruct (p_issues (run el (get key (VObj fields)))) eqn:E; [reflexivity |].
  exfalso.
  destruct (proj2 (field_issue_at (createMatchFields datetime) (VObj fields) key
                     (createMatchFields_root_paths datetime)
                     (createMatchFields_NoDup datetime))) as [raw [Hin _]].
  { exists el. split; [exact Hel | congruence]. }
  rewrite HF in Hin. destruct Hin.
Qed.

Lemma createMatch_success_object body :
  success (safeParse (createMatchSchema datetime Date_parse) body) = true ->
  exists fields, body = VObj fields.
Proof.
  intros Hsucc. destruct body as [| | | | | | fields]; eauto.
  all: unfold createMatchSchema, superRefine in Hsucc;
    rewrite parse_non_object in Hsucc by discriminate; discriminate Hsucc.
Qed.

(** A body that passes createMatch carries no negative score. *)
Lemma createMatch_scores_nonneg body data key n :
  safeParse (createMatchSchema datetime Date_parse) body = Success data ->
  key = "homeScore" \/ key = "awayScore" ->
  int_of (get key data) = Some n -> 0 <= n.
Proof.
  intros Hparse Hkey Hint.
  assert (Hsucc : success (safeParse (createMatchSchema datetime Date_parse) body) = true)
    by (rewrite Hparse; reflexivity).
  destruct (createMatch_success_object body Hsucc) as [fields ->].
  pose proof (fun el => createMatch_success_fields fields key el Hsucc) as Hfield.
  apply safeParse_success in Hsucc.
  rewrite (safeParse_data _ _ Hsucc) in Hparse. injection Hparse as <-.
  rewrite createMatch_data, parse_fields_get in Hint by apply createMatchFields_NoDup.
  destruct Hkey as [-> | ->];
    cbn [lookup createMatchFields String.eqb Ascii.eqb Bool.eqb] in Hint, Hfield;
    specialize (Hfield _ eq_refl);
    apply optional_score_ok in Hfield;
    rewrite optional_score_value in Hint;
    unfold optional_score in Hfield;
    (destruct (is_undefined _); [discriminate Hint |]);
    cbn [orb] in Hfield; apply coerces_within_spec in Hfield;
    destruct Hfield as [m [Hm Hr]]; cbn [int_of] in Hint;
    rewrite Hm in Hint; injection Hint as <-; lia.
Qed.

Lemma createMatch_rejects_negative fields key :
  key = "homeScore" \/ key = "awayScore" ->
  num_lt (ToNumber (get key (VObj fields))) (num 0) = true ->
  success (safeParse (createMatchSchema datetime Date_parse) (VObj fields)) = false.
Proof.
  intros Hkey Hneg. apply not_true_is_false. intros Hsucc.
  pose proof (fun el => createMatch_success_fields fields key el Hsucc) as Hfield.
  destruct Hkey as [-> | ->];
    cbn [lookup createMatchFields String.eqb Ascii.eqb Bool.eqb] in Hfield;
    specialize (Hfield _ eq_refl);
    apply optional_score_ok in Hfield; unfold optional_score in Hfield;
    (destruct (is_undefined _) eqn:Hu;
     [ destruct (get _ (VObj fields)); discriminate
     | cbn [orb] in Hfield;
       apply (coerces_within_not_negative 0) in Hfield; [congruence | lia] ]).
Qed.

Lemma updateScore_rejects_negative fields key :
  key = "homeScore" \/ key = "awayScore" ->
  num_lt (ToNumber (get key (VObj fields))) (num 0) = true ->
  success (safeParse updateScoreSchema (VObj fields)) = false.
Proof.
  intros Hkey Hneg. apply not_true_is_false. intros Hsucc.
  rewrite updateScore_parse in Hsucc. cbv zeta in Hsucc.
  destruct (_ ++ _) eqn:E; [| discriminate Hsucc].
  apply app_eq_nil in E. destruct E as [Eh Ea].
  apply score_issues_nil, (coerces_within_not_negative 0) in Eh, Ea; try lia.
  destruct Hkey as [-> | ->]; congruence.
Qed.

Lemma with_id_preserves params db k :
  store_ok db -> (forall id, store_ok (fst (k id))) ->
  store_ok (fst (with_id params db k)).
Proof.
  intros Hdb Hk. unfold with_id.
  destruct (safeParse matchIdParamSchema params); [| exact Hdb].
  destruct (int_of _); [apply Hk | exact Hdb].
Qed.

Lemma createMatch_preserves body data now db :
  safeParse (createMatchSchema datetime Date_parse) body = Success data ->
  store_ok db ->
  store_ok (fst (createMatch (newMatch_of Date_parse data) now db)).
Proof.
  intros Hparse Hdb.
  destruct (createMatch (newMatch_of Date_parse data) now db) as [db' [r | | e]] eqn:E.
  - apply createMatch_row in E. destruct E as [Hr [Hrows _]].
    unfold store_ok in *. cbn [fst]. rewrite Hrows. apply Forall_app. split; [exact Hdb |].
    constructor; [| constructor]. rewrite Hr. unfold match_ok. cbn.
    split; [exists "scheduled"; auto |].
    pose proof (createMatch_scores_nonneg body data "homeScore") as Hh.
    pose proof (createMatch_scores_nonneg body data "awayScore") as Ha.
    split.
    + destruct (int_of (get "homeScore" data)) as [h |]; cbn.
      * exists h. split; [reflexivity | apply (Hh h); auto].
      * exists 0. split; [reflexivity | lia].
    + destruct (int_of (get "awayScore" data)) as [a |]; cbn.
      * exists a. split; [reflexivity | apply (Ha a); auto].
      * exists 0. split; [reflexivity | lia].
  - unfold createMatch in E. destruct (insert_row _ _ _ _ _ _); discriminate E.
  - unfold createMatch in E. destruct (insert_row _ _ _ _ _ _); [| discriminate E].
    injection E as <- _. exact Hdb.
Qed.

Lemma updateMatchScore_preserves id h a db :
  0 <= h -> 0 <= a -> store_ok db -> store_ok (fst (updateMatchScore id h a db)).
Proof.
  intros Hh Ha Hdb. unfold updateMatchScore.
  destruct (find _ _); [| exact Hdb].
  destruct (negb _); [exact Hdb |]. destruct (negb _); [exact Hdb |].
  unfold store_ok in *. cbn [fst matches_rows]. apply Forall_map.
  eapply Forall_impl; [| exact Hdb]. intros r' Hr.
  destruct (by_id id r'); [apply set_scores_ok; assumption | exact Hr].
Qed.

Lemma deleteMatch_preserves id db :
  store_ok db -> store_ok (fst (deleteMatch cascade id db)).
Proof.
  intros Hdb. unfold deleteMatch.
  destruct (find _ _); [| exact Hdb].
  destruct (_ || _); [| exact Hdb].
  unfold store_ok in *. cbn [fst matches_rows].
  apply Forall_forall. intros r' Hr. apply filter_In in Hr.
  rewrite Forall_forall in Hdb. apply Hdb. tauto.
Qed.

Lemma addCommentary_preserves id fields now db :
  store_ok db -> store_ok (fst (addCommentary id fields now db)).
Proof.
  intros Hdb. unfold addCommentary.
  destruct (insert_row _ _ _ _ _ _); exact Hdb.
Qed.

Lemma handle_preserves req now db :
  store_ok db -> store_ok (fst (handle datetime Date_parse cascade req now db)).
Proof.
  intros Hdb. destruct req as [query | params | body | params body | params
                              | params fields | params]; cbn [handle].
  - destruct (safeParse _ _); exact Hdb.
  - apply with_id_preserves; [exact Hdb |]. intros id.
    destruct (getMatch id db); exact Hdb.
  - destruct (safeParse _ _) as [data |] eqn:E; [| exact Hdb].
    pose proof (createMatch_preserves body data now db E Hdb) as H.
    destruct (createMatch _ now db) as [db' [r | | e]]; exact H.
  - apply with_id_preserves; [exact Hdb |]. intros id.
    destruct (safeParse updateScoreSchema body) as [data |] eqn:E; [| exact Hdb].
    destruct (int_of (get "homeScore" data)) as [h |] eqn:Eh; [| exact Hdb].
    destruct (int_of (get "awayScore" data)) as [a |] eqn:Ea; [| exact Hdb].
    assert (H : store_ok (fst (updateMatchScore id h a db))).
    { apply updateMatchScore_preserves; [| | exact Hdb].
      - eapply (updateScore_scores_nonneg body data "homeScore"); eauto.
      - eapply (updateScore_scores_nonneg body data "awayScore"); eauto. }
    destruct (updateMatchScore id h a db) as [db' [r | | e]]; exact H.
  - apply with_id_preserves; [exact Hdb |]. intros id.
    pose proof (deleteMatch_preserves id db Hdb) as H.
    destruct (deleteMatch cascade id db) as [db' [u | | e]]; exact H.
  - apply with_id_preserves; [exact Hdb |]. intros id.
    pose proof (addCommentary_preserves id fields now db Hdb) as H.
    destruct (addCommentary id fields now db) as [db' [c | | e]]; exact H.
  - apply with_id_preserves; [exact Hdb |]. intros id. exact Hdb.
Qed.

End Invariant.

Lemma check_row_column cols r key c :
  check_row cols r = None -> In (key, c) cols -> check_column c (field key r) = None.
Proof.
  induction cols as [| [k0 c0] cols IH]; cbn [check_row In]; [tauto |].
  destruct (check_column c0 (field k0 r)) eqn:E; [discriminate |].
  intros Hrest [[= <- <-] | Hin]; [exact E | auto].
Qed.

Lemma status_column_values col v :
  lookup "status" (columns matches) = Some col ->
  check_column col v = None
  <-> v = Text "scheduled" \/ v = Text "live" \/ v = Text "finished".
Proof.
  cbn. intros [= <-]. unfold check_column. cbn.
  destruct v as [| z | s | t | j | items]; cbn;
    try (split; [discriminate | intros [H | [H | H]]; discriminate H]).
  destruct (String.eqb_spec s "scheduled") as [-> | H1]; cbn; [tauto |].
  destruct (String.eqb_spec s "live") as [-> | H2]; cbn; [tauto |].
  destruct (String.eqb_spec s "finished") as [-> | H3]; cbn; [tauto |].
  split; [discriminate |]. intros [H | [H | H]]; congruence.
Qed.

(** C7.  The status enum has the three values [scheduled], [live] and
    [finished]; the status column takes these and no other value, so
    that every match [createMatch] stores has one of them; the create
    and the score-update validators both fail on a score that converts
    to a negative number; and every request leaves the store in a state
    where each match has one of the three statuses and two non-negative
    scores. *)
Theorem match_invariant :
  enumValues matchStatusEnum = [ "scheduled"; "live"; "finished" ]
  /\ (forall col v, lookup "status" (columns matches) = Some col ->
        (check_column col v = None
         <-> v = Text "scheduled" \/ v = Text "live" \/ v = Text "finished"))
  /\ (forall fields now db db' r,
        createMatch fields now db = (db', Ok r) ->
        field "status" r = Text "scheduled" \/ field "status" r = Text "live"
        \/ field "status" r = Text "finished")
  /\ (forall datetime Date_parse fields key,
        key = "homeScore" \/ key = "awayScore" ->
        num_lt (ToNumber (get key (VObj fields))) (num 0) = true ->
        success (safeParse (createMatchSchema datetime Date_parse) (VObj fields)) = false
        /\ success (safeParse updateScoreSchema (VObj fields)) = false)
  /\ (forall datetime Date_parse cascade req now db,
        store_ok db ->
        store_ok (fst (handle datetime Date_parse cascade req now db))).
Proof.
  split; [reflexivity |]. split; [apply status_column_values |]. split; [| split].
  - intros fields now db db' r H. apply createMatch_row in H.
    destruct H as [_ [_ [Hcheck _]]].
    eapply status_column_values; [reflexivity |].
    apply (check_row_column _ _ _ _ Hcheck). cbn. auto 10.
  - intros datetime Date_parse fields key Hkey Hneg. split.
    + eapply createMatch_rejects_negative; eauto.
    + eapply updateScore_rejects_negative; eauto.
  - intros. apply handle_preserves. assumption.
Qed.

Lemma sample_database_ok : store_ok sample_database.
Proof.
  unfold store_ok, sample_database, match_ok. cbn.
  constructor; [| constructor].
  split; [exists "scheduled"; auto |].
  split; exists 0; split; (reflexivity || lia).
Qed.

Lemma match_invariant_witness :
  store_ok (fst (handle Reference.datetime Reference.Date_parse false
                        (PATCH_match_score
                           (VObj [("id", VStr "1")])
                           (VObj [("homeScore", VNum (num 3)); ("awayScore", VStr "2")]))
                        1772380000000 sample_database)).
Proof.
  apply (proj2 (proj2 (proj2 (proj2 match_invariant)))).
  exact sample_database_ok.
Defined.

Example patch_score_response :
  snd (handle Reference.datetime Reference.Date_parse false
              (PATCH_match_score
                 (VObj [("id", VStr "1")])
                 (VObj [("homeScore", VNum (num 3)); ("awayScore", VStr "2")]))
              1772380000000 sample_database)
  = OK_row [ ("id", Int 1); ("sport", Text "football"); ("homeTeam", Text "Team A");
             ("awayTeam", Text "Team B"); ("status", Text "scheduled");
             ("startTime", Timestamp 1772377200000); ("endTime", Null);
             ("homeScore", Int 3); ("awayScore", Int 2);
             ("createdAt", Timestamp 1772300000000) ].
Proof. vm_compute. reflexivity. Qed.

Example post_match_response :
  snd (handle Reference.datetime Reference.Date_parse false
              (POST_matches (VObj (sample_match
                                     ++ [("endTime", VStr "2026-03-01T17:00:00Z")])))
              1772300000000 empty_database)
  = Created [ ("id", Int 1); ("sport", Text "football"); ("homeTeam", Text "Team A");
              ("awayTeam", Text "Team B"); ("status", Text "scheduled");
              ("startTime", Timestamp 1772377200000);
              ("endTime", Timestamp 1772384400000);
              ("homeScore", Int 0); ("awayScore", Int 0);
              ("createdAt", Timestamp 1772300000000) ].
Proof. vm_compute. reflexivity. Qed.

(** * Further properties

    What the schemas and the tables do beyond the statements above. *)

Lemma parse_fields_ext shape i1 i2 :
  (forall k, In k (map fst shape) -> get k i1 = get k i2 /\ has k i1 = has k i2) ->
  parse_fields shape i1 = parse_fields shape i2.
Proof.
  induction shape as [| [key el] shape IH] using rev_ind; intros H.
  - reflexivity.
  - rewrite !parse_fields_snoc.
    rewrite IH by (intros k Hk; apply H; rewrite map_app; apply in_or_app; auto).
    destruct (H key) as [Hg Hh].
    { rewrite map_app. apply in_or_app. right. left. reflexivity. }
    unfold handlePropertyResult. rewrite Hg, Hh. reflexivity.
Qed.

Lemma agree_on_get keys f1 f2 :
  agree_on keys f1 f2 ->
  forall k, In k keys ->
    get k (VObj f1) = get k (VObj f2) /\ has k (VObj f1) = has k (VObj f2).
Proof. intros H k Hk. cbn [get has]. rewrite (H k Hk). auto. Qed.

Lemma object_ext shape f1 f2 :
  agree_on (map fst shape) f1 f2 ->
  run (z_object shape) (VObj f1) = run (z_object shape) (VObj f2).
Proof.
  intros H. unfold run. cbn [z_object parse checks runChecks].
  apply parse_fields_ext. apply agree_on_get. exact H.
Qed.

Lemma safeParse_ext t v1 v2 : run t v1 = run t v2 -> safeParse t v1 = safeParse t v2.
Proof. unfold safeParse. intros ->. reflexivity. Qed.

(** X1.  The four schemas read the keys of their shape and nothing else:
    two request objects that bind these keys alike get the same result,
    whatever other keys they carry. *)
Theorem unknown_keys_ignored :
  forall (datetime : string -> bool) (Date_parse : value -> number)
         (f1 f2 : list (string * value)),
  (agree_on ["limit"] f1 f2 ->
   safeParse listMatchesQuerySchema (VObj f1) = safeParse listMatchesQuerySchema (VObj f2))
  /\ (agree_on ["id"] f1 f2 ->
      safeParse matchIdParamSchema (VObj f1) = safeParse matchIdParamSchema (VObj f2))
  /\ (agree_on ["homeScore"; "awayScore"] f1 f2 ->
      safeParse updateScoreSchema (VObj f1) = safeParse updateScoreSchema (VObj f2))
  /\ (agree_on createMatch_keys f1 f2 ->
      safeParse (createMatchSchema datetime Date_parse) (VObj f1)
      = safeParse (createMatchSchema datetime Date_parse) (VObj f2)).
Proof.
  intros datetime Date_parse f1 f2. repeat split; intros H; apply safeParse_ext.
  1-3: apply object_ext; exact H.
  unfold createMatchSchema, superRefine. rewrite !run_with_check.
  f_equal. apply object_ext. exact H.
Qed.

Lemma unknown_keys_ignored_witness :
  safeParse updateScoreSchema
            (VObj [("homeScore", VNum (num 3)); ("status", VStr "finished");
                   ("awayScore", VNum (num 2))])
  = safeParse updateScoreSchema
              (VObj [("homeScore", VNum (num 3)); ("awayScore", VNum (num 2))]).
Proof.
  apply (proj1 (proj2 (proj2 (unknown_keys_ignored Reference.datetime Reference.Date_parse
                                _ _)))).
  intros k [<- | [<- | []]]; reflexivity.
Defined.

(** The data of a successful parse binds no key outside the shape. *)
Lemma object_data_keys shape input k :
  NoDup (map fst shape) -> ~ In k (map fst shape) ->
  get k (p_value (run (z_object shape) input)) = VUndefined
  \/ p_issues (run (z_object shape) input) <> [].
Proof.
  intros Hnd Hk. destruct input; try (right; discriminate).
  left. unfold run. cbn [z_object parse checks runChecks].
  change (fold_left _ shape _) with (parse_fields shape (VObj fields)).
  rewrite parse_fields_get by exact Hnd.
  assert (Hl : lookup k shape = None).
  { clear - Hk. induction shape as [| [k0 e0] shape IH]; cbn [lookup]; [reflexivity |].
    cbn [map fst In] in Hk. destruct (String.eqb_spec k k0); [subst; tauto |].
    apply IH. tauto. }
  rewrite Hl. reflexivity.
Qed.

Lemma object_strips shape input data k :
  NoDup (map fst shape) -> ~ In k (map fst shape) ->
  safeParse (z_object shape) input = Success data -> get k data = VUndefined.
Proof.
  intros Hnd Hk. unfold safeParse.
  destruct (object_data_keys shape input k Hnd Hk) as [H | H];
    destruct (p_issues _); try congruence; intros [= <-]; exact H.
Qed.

Lemma refined_object_strips shape fn input data k :
  NoDup (map fst shape) -> ~ In k (map fst shape) ->
  safeParse (z_object shape |> superRefine fn) input = Success data ->
  get k data = VUndefined.
Proof.
  intros Hnd Hk. unfold safeParse, superRefine. rewrite run_with_check.
  rewrite runChecks_value.
  destruct (runChecks_issues_prefix (run (z_object shape) input)
              [{| when := None; run_check := fn |}]) as [more Hm].
  rewrite Hm.
  destruct (object_data_keys shape input k Hnd Hk) as [H | H];
    destruct (p_issues (run (z_object shape) input)); cbn [app]; try congruence.
  destruct more; [| discriminate]. intros [= <-]. exact H.
Qed.

(** X2.  The data of a successful parse binds no key outside the shape
    of the schema: what else the request carried, a [status] in a
    create-match body for one, is dropped. *)
Theorem unknown_keys_stripped :
  forall (datetime : string -> bool) (Date_parse : value -> number)
         (input data : value) (k : string),
  (safeParse listMatchesQuerySchema input = Success data ->
   k <> "limit" -> get k data = VUndefined)
  /\ (safeParse matchIdParamSchema input = Success data ->
      k <> "id" -> get k data = VUndefined)
  /\ (safeParse updateScoreSchema input = Success data ->
      ~ In k ["homeScore"; "awayScore"] -> get k data = VUndefined)
  /\ (safeParse (createMatchSchema datetime Date_parse) input = Success data ->
      ~ In k createMatch_keys -> get k data = VUndefined).
Proof.
  intros datetime Date_parse input data k. repeat split.
  - intros H Hk. eapply object_strips; [| | exact H].
    + cbn. repeat constructor; cbn; intuition discriminate.
    + cbn. intuition congruence.
  - intros H Hk. eapply object_strips; [| | exact H].
    + cbn. repeat constructor; cbn; intuition discriminate.
    + cbn. intuition congruence.
  - intros H Hk. eapply object_strips; [| | exact H].
    + cbn. repeat constructor; cbn; intuition discriminate.
    + exact Hk.
  - intros H Hk. unfold createMatchSchema in H.
    eapply refined_object_strips; [| | exact H].
    + apply (createMatchFields_NoDup datetime).
    + exact Hk.
Qed.

Lemma payload_eta (p : payload) : p = {| p_value := p_value p; p_issues := p_issues p |}.
Proof. destruct p; reflexivity. Qed.

Lemma idempotent_preserving el :
  (forall v, p_value (run el v) = v) -> idempotent el.
Proof.
  intros Hv v Hi. rewrite Hv. rewrite (payload_eta (run el v)), Hv, Hi. reflexivity.
Qed.

Lemma idempotent_name msg : idempotent (z_string |> ZodString.min 1 msg).
Proof. apply idempotent_preserving. apply name_value. Qed.

Lemma idempotent_datetime pattern : idempotent (z_iso_datetime pattern).
Proof. apply idempotent_preserving. apply datetime_value. Qed.

Lemma idempotent_number el :
  (forall v, p_value (run el v) = VNum (ToNumber v)) ->
  (forall v, run el (VNum (ToNumber v)) = run el v) ->
  idempotent el.
Proof.
  intros Hv Hre v Hi. rewrite Hv, Hre.
  rewrite (payload_eta (run el v)), Hv, Hi. reflexivity.
Qed.

Lemma idempotent_id : idempotent (z_coerce_number |> ZodNumber.int |> ZodNumber.positive).
Proof. apply idempotent_number; [apply positive_int_value | reflexivity]. Qed.

Lemma idempotent_limit_inner :
  idempotent (z_coerce_number |> ZodNumber.int |> ZodNumber.positive |> ZodNumber.max 100).
Proof. apply idempotent_number; [apply limit_value | reflexivity]. Qed.

Lemma idempotent_score : idempotent (z_coerce_number |> ZodNumber.int |> ZodNumber.min 0).
Proof. apply idempotent_number; [apply score_value | reflexivity]. Qed.

Lemma idempotent_optional el :
  (forall v, is_undefined (p_value (run el v)) = false) ->
  idempotent el -> idempotent (optional el).
Proof.
  intros Hdef Hel v Hi. destruct (is_undefined v) eqn:E.
  - destruct v; try discriminate. reflexivity.
  - rewrite (optional_defined el v E) in *.
    rewrite optional_defined by apply Hdef. apply Hel. exact Hi.
Qed.

Lemma has_set k k' v o :
  (exists fields, o = VObj fields) ->
  has k (set k' v o) = String.eqb k k' || has k o.
Proof.
  intros [fields ->]. cbn [set has]. rewrite lookup_update.
  destruct (String.eqb k k'); reflexivity.
Qed.

Lemma lookup_not_in {A : Type} k (l : list (string * A)) :
  ~ In k (map fst l) -> lookup k l = None.
Proof.
  induction l as [| [k0 e0] l IH]; cbn [lookup]; [reflexivity |].
  cbn [map fst In]. intros H. destruct (String.eqb_spec k k0); [subst; tauto |].
  apply IH. tauto.
Qed.

Lemma parse_fields_has shape input k :
  ~ In k (map fst shape) -> has k (p_value (parse_fields shape input)) = false.
Proof.
  induction shape as [| [key el] shape IH] using rev_ind; intros Hk.
  - reflexivity.
  - rewrite map_app, in_app_iff in Hk. cbn [map fst In] in Hk.
    rewrite parse_fields_snoc. unfold handlePropertyResult. cbn [p_value].
    assert (Hne : String.eqb k key = false).
    { destruct (String.eqb_spec k key); [subst; tauto | reflexivity]. }
    destruct (is_undefined _); [destruct (has key input) |];
      rewrite ?has_set by apply parse_fields_object; rewrite ?Hne; cbn [orb];
      apply IH; tauto.
Qed.

Lemma parse_fields_idempotent shape input :
  NoDup (map fst shape) ->
  Forall (fun entry => idempotent (snd entry)) shape ->
  p_issues (parse_fields shape input) = [] ->
  parse_fields shape (p_value (parse_fields shape input))
  = {| p_value := p_value (parse_fields shape input); p_issues := [] |}.
Proof.
  induction shape as [| [key el] shape IH] using rev_ind; intros Hnd Hid Hiss.
  - reflexivity.
  - rewrite map_app in Hnd. cbn [map fst] in Hnd.
    assert (Hnd' : NoDup (map fst shape)) by (eapply NoDup_app_remove_r; eauto).
    assert (Hfresh : ~ In key (map fst shape)).
    { apply NoDup_remove_2 in Hnd. rewrite app_nil_r in Hnd. exact Hnd. }
    apply Forall_app in Hid. destruct Hid as [Hid Hel].
    inversion Hel as [| ? ? Hel' _]; subst. cbn [snd] in Hel'.
    rewrite parse_fields_snoc in Hiss. cbn [handlePropertyResult p_issues] in Hiss.
    apply app_eq_nil in Hiss. destruct Hiss as [Hiss Hr].
    assert (Hr' : p_issues (run el (get key input)) = [])
      by (destruct (p_issues (run el (get key input))); [reflexivity | discriminate Hr]).
    specialize (IH Hnd' Hid Hiss). specialize (Hel' _ Hr').
    set (D := p_value (parse_fields shape input)) in *.
    set (r := run el (get key input)) in *.
    assert (HD : exists fields, D = VObj fields) by apply parse_fields_object.
    assert (HgetD : get key D = VUndefined).
    { unfold D. rewrite parse_fields_get by exact Hnd'.
      rewrite (lookup_not_in key shape Hfresh). reflexivity. }
    assert (HhasD : has key D = false) by (apply parse_fields_has; exact Hfresh).
    assert (Hext : forall v, parse_fields shape (set key v D) = parse_fields shape D).
    { intros v. apply parse_fields_ext. intros k Hk.
      assert (Hne : String.eqb k key = false).
      { destruct (String.eqb_spec k key); [subst; tauto | reflexivity]. }
      rewrite get_set, has_set by exact HD. rewrite Hne. auto. }
    assert (HD1 : p_value (parse_fields (shape ++ [(key, el)]) input)
                  = if is_undefined (p_value r)
                    then (if has key input then set key VUndefined D else D)
                    else set key (p_value r) D)
      by (rewrite parse_fields_snoc; reflexivity).
    rewrite HD1. clear HD1.
    assert (Hstep : forall T v,
               parse_fields shape T = {| p_value := D; p_issues := [] |} ->
               get key T = v ->
               run el v = {| p_value := v; p_issues := [] |} ->
               (if is_undefined v then (if has key T then set key VUndefined D else D)
                else set key v D) = T ->
               parse_fields (shape ++ [(key, el)]) T = {| p_value := T; p_issues := [] |}).
    { intros T v HT Hg Hrun Hval. rewrite parse_fields_snoc, HT, Hg, Hrun.
      unfold handlePropertyResult. cbn [p_value p_issues app map].
      rewrite Hval. reflexivity. }
    destruct (is_undefined (p_value r)) eqn:Hu.
    + assert (Hv : p_value r = VUndefined)
        by (destruct (p_value r); try discriminate; reflexivity).
      rewrite Hv in Hel'.
      destruct (has key input).
      * apply (Hstep _ VUndefined).
        -- rewrite Hext. exact IH.
        -- rewrite get_set, String.eqb_refl by exact HD. reflexivity.
        -- exact Hel'.
        -- cbn [is_undefined]. rewrite has_set, String.eqb_refl by exact HD. reflexivity.
      * apply (Hstep _ VUndefined).
        -- exact IH.
        -- exact HgetD.
        -- exact Hel'.
        -- cbn [is_undefined]. rewrite HhasD. reflexivity.
    + apply (Hstep _ (p_value r)).
      * rewrite Hext. exact IH.
      * rewrite get_set, String.eqb_refl by exact HD. reflexivity.
      * exact Hel'.
      * rewrite Hu. reflexivity.
Qed.

Lemma object_idempotent shape input data :
  NoDup (map fst shape) ->
  Forall (fun entry => idempotent (snd entry)) shape ->
  safeParse (z_object shape) input = Success data ->
  run (z_object shape) data = {| p_value := data; p_issues := [] |}.
Proof.
  intros Hnd Hid. unfold safeParse.
  destruct input; try discriminate.
  unfold run at 1 2. cbn [z_object parse checks runChecks].
  change (fold_left _ shape _) with (parse_fields shape (VObj fields)).
  destruct (p_issues (parse_fields shape (VObj fields))) eqn:E; [| discriminate].
  intros [= <-].
  destruct (parse_fields_object shape (VObj fields)) as [out Hout].
  unfold run. rewrite Hout. cbn [z_object parse checks runChecks].
  change (fold_left _ shape _) with (parse_fields shape (VObj out)).
  rewrite <- Hout. apply parse_fields_idempotent; assumption.
Qed.

Lemma safeParse_of_run t v d :
  run t v = {| p_value := d; p_issues := [] |} -> safeParse t v = Success d.
Proof. unfold safeParse. intros ->. reflexivity. Qed.

Lemma createMatchFields_idempotent datetime :
  Forall (fun entry => idempotent (snd entry)) (createMatchFields datetime).
Proof.
  repeat constructor; cbn [snd].
  1-3: apply idempotent_name.
  1-2: apply idempotent_datetime.
  1-2: apply idempotent_optional; [| apply idempotent_score];
    intros v; rewrite score_value; reflexivity.
Qed.

(** X3.  Validation is idempotent: the data a schema hands back passes
    the same schema again and comes back unchanged. *)
Theorem validation_idempotent :
  forall (datetime : string -> bool) (Date_parse : value -> number)
         (input data : value),
  (safeParse listMatchesQuerySchema input = Success data ->
   safeParse listMatchesQuerySchema data = Success data)
  /\ (safeParse matchIdParamSchema input = Success data ->
      safeParse matchIdParamSchema data = Success data)
  /\ (safeParse updateScoreSchema input = Success data ->
      safeParse updateScoreSchema data = Success data)
  /\ (safeParse (createMatchSchema datetime Date_parse) input = Success data ->
      safeParse (createMatchSchema datetime Date_parse) data = Success data).
Proof.
  intros datetime Date_parse input data. repeat split; intros H.
  - apply safeParse_of_run. eapply object_idempotent; [| | exact H].
    + cbn. repeat constructor; cbn; intuition discriminate.
    + repeat constructor; cbn [snd].
      apply idempotent_optional; [| apply idempotent_limit_inner].
      intros v; rewrite limit_value; reflexivity.
  - apply safeParse_of_run. eapply object_idempotent; [| | exact H].
    + cbn. repeat constructor; cbn; intuition discriminate.
    + repeat constructor; cbn [snd]. apply idempotent_id.
  - apply safeParse_of_run. eapply object_idempotent; [| | exact H].
    + cbn. repeat constructor; cbn; intuition discriminate.
    + repeat constructor; cbn [snd]; apply idempotent_score.
  - assert (Hsucc : success (safeParse (createMatchSchema datetime Date_parse) input) = true)
      by (rewrite H; reflexivity).
    destruct (createMatch_success_object datetime Date_parse input Hsucc) as [fields ->].
    apply safeParse_success in Hsucc.
    rewrite (safeParse_data _ _ Hsucc) in H. injection H as Hd.
    pose proof Hsucc as Hiss. rewrite createMatch_issues in Hiss. cbv zeta in Hiss.
    apply app_eq_nil in Hiss. destruct Hiss as [HF HR].
    rewrite createMatch_data in Hd.
    assert (Hwt : well_typed (VObj fields) = true).
    { destruct (well_typed (VObj fields)) eqn:E; [reflexivity |].
      exfalso. exact (createMatch_ill_typed datetime fields E HF). }
    rewrite Hwt in HR.
    assert (Hpf : parse_fields (createMatchFields datetime) data
                  = {| p_value := data; p_issues := [] |}).
    { rewrite <- Hd. apply parse_fields_idempotent.
      - apply createMatchFields_NoDup.
      - apply createMatchFields_idempotent.
      - rewrite parse_fields_issues. exact HF. }
    destruct (parse_fields_object (createMatchFields datetime) (VObj fields)) as [out Hout].
    subst data. rename Hout into Hd'. rewrite Hd' in Hpf |- *.
    apply safeParse_of_run. rewrite createMatch_run. cbv zeta. rewrite Hpf.
    cbn [p_issues aborted existsb p_value app].
    assert (Href : createMatchRefinement Date_parse (VObj out)
                   = createMatchRefinement Date_parse (VObj fields)).
    { unfold createMatchRefinement. rewrite <- Hd'.
      rewrite !parse_fields_get by apply createMatchFields_NoDup.
      cbn [lookup createMatchFields String.eqb Ascii.eqb Bool.eqb].
      rewrite !datetime_value. reflexivity. }
    rewrite Href, HR. reflexivity.
Qed.

(** *** Exact acceptance of listMatches *)

(** X4.  The query of listMatches passes exactly when it is an object
    whose [limit] is undefined or converts to an integer between 1 and
    100: any other value, one that converts to NaN or to a number that
    is not an integer included, fails. *)
Theorem listMatches_accepts_exactly : forall query : value,
  success (safeParse listMatchesQuerySchema query) = true
  <-> exists fields, query = VObj fields
        /\ (get "limit" query = VUndefined
            \/ exists n, to_int (ToNumber (get "limit" query)) = Some n /\ 1 <= n <= 100).
Proof.
  intros query. split.
  - intros H. destruct query as [| | | | | | fields]; try discriminate H.
    exists fields. split; [reflexivity |].
    destruct (is_undefined (get "limit" (VObj fields))) eqn:E.
    + left. destruct (get "limit" (VObj fields)); try discriminate; reflexivity.
    + right. apply coerces_within_spec, limit_ok.
      unfold listMatchesQuerySchema in H. rewrite safeParse_object1 in H.
      cbv zeta in H. rewrite optional_defined in H by exact E.
      destruct (p_issues _); [reflexivity | discriminate H].
  - intros [fields [-> [Hu | Hn]]].
    + unfold listMatchesQuerySchema. rewrite safeParse_object1. cbv zeta.
      rewrite Hu. reflexivity.
    + destruct (is_undefined (get "limit" (VObj fields))) eqn:E.
      * unfold listMatchesQuerySchema. rewrite safeParse_object1. cbv zeta.
        destruct (get "limit" (VObj fields)); try discriminate. reflexivity.
      * unfold listMatchesQuerySchema. rewrite safeParse_object1. cbv zeta.
        rewrite optional_defined by exact E.
        apply coerces_within_spec, limit_ok in Hn. rewrite Hn. reflexivity.
Qed.

(** *** Exact acceptance of createMatch *)

(** X5.  A create-match body passes exactly when it is an object, each
    of the seven fields passes its own rule, [Date.parse] reads both
    times, and the end is not at or before the start. *)
Theorem createMatch_accepts_exactly :
  forall (datetime : string -> bool) (Date_parse : value -> number) (body : value),
  success (safeParse (createMatchSchema datetime Date_parse) body) = true
  <-> exists fields, body = VObj fields
        /\ (forall key, In key createMatch_keys ->
              field_rule datetime key (get key body) = true)
        /\ Number_isNaN (Date_parse (get "startTime" body)) = false
        /\ Number_isNaN (Date_parse (get "endTime" body)) = false
        /\ num_le (Date_parse (get "endTime" body))
                  (Date_parse (get "startTime" body)) = false.
Proof.
  intros datetime Date_parse body. split.
  - intros H. destruct (createMatch_success_object datetime Date_parse body H)
      as [fields ->].
    exists fields. split; [reflexivity |].
    assert (Hrules : forall key, In key createMatch_keys ->
                       field_rule datetime key (get key (VObj fields)) = true).
    { intros key Hkey. destruct (createMatch_keys_lookup datetime key Hkey) as [el Hel].
      apply (createMatch_field_ok datetime key el Hel).
      eapply createMatch_success_fields; eauto. }
    split; [exact Hrules |].
    apply safeParse_success in H. rewrite createMatch_issues in H. cbv zeta in H.
    apply app_eq_nil in H. destruct H as [HF HR].
    assert (Hwt : well_typed (VObj fields) = true).
    { destruct (well_typed (VObj fields)) eqn:E; [reflexivity |].
      exfalso. exact (createMatch_ill_typed datetime fields E HF). }
    rewrite Hwt in HR. unfold createMatchRefinement in HR.
    destruct (Number_isNaN (Date_parse (get "startTime" (VObj fields))));
      [discriminate HR |].
    destruct (Number_isNaN (Date_parse (get "endTime" (VObj fields))));
      [discriminate HR |].
    destruct (num_le _ _); [discriminate HR | auto].
  - intros [fields [-> [Hrules [Hs [He Hle]]]]].
    apply safeParse_success. rewrite createMatch_issues. cbv zeta.
    destruct (createMatch_field_issues_nil datetime fields
                (Hrules "sport" ltac:(cbn; auto 10))
                (Hrules "homeTeam" ltac:(cbn; auto 10))
                (Hrules "awayTeam" ltac:(cbn; auto 10))
                (Hrules "startTime" ltac:(cbn; auto 10))
                (Hrules "endTime" ltac:(cbn; auto 10))
                (Hrules "homeScore" ltac:(cbn; auto 10))
                (Hrules "awayScore" ltac:(cbn; auto 10))) as [-> ->].
    unfold createMatchRefinement. rewrite Hs, He, Hle. reflexivity.
Qed.

(** *** The exact error of updateScore *)

Lemma score_issues_exact key body :
  map finalizeIssue (score_issues key body) = score_error key body.
Proof.
  unfold score_issues, score_error, score_verdict.
  unfold_number_run. number_cases (get key body); try reflexivity; lia.
Qed.

(** X6.  The error of updateScore is determined by the two numbers the
    scores convert to, [homeScore] first: NaN or an infinity (a missing
    score converts to NaN) gives an invalid-type [number] issue, a
    number that is not an integer an invalid-type [int] issue and
    nothing else, a negative integer [too_small 0], an integer beyond
    the safe range the safe bound. *)
Theorem updateScore_error_exact : forall fields : list (string * value),
  let body := VObj fields in
  error_of (safeParse updateScoreSchema body)
  = score_error "homeScore" body ++ score_error "awayScore" body.
Proof.
  intros fields body. unfold body. rewrite updateScore_parse. cbv zeta.
  rewrite <- !score_issues_exact, <- map_app.
  destruct (_ ++ _); reflexivity.
Qed.

(** *** Optional scores of createMatch *)

Lemma parse_fields_has_key shape input k el :
  NoDup (map fst shape) -> lookup k shape = Some el ->
  has k (p_value (parse_fields shape input))
  = negb (is_undefined (p_value (run el (get k input)))) || has k input.
Proof.
  induction shape as [| [key e] shape IH] using rev_ind; intros Hnd Hl.
  - discriminate Hl.
  - rewrite map_app in Hnd. cbn [map fst] in Hnd.
    assert (Hnd' : NoDup (map fst shape)) by (eapply NoDup_app_remove_r; eauto).
    assert (Hfresh : ~ In key (map fst shape)).
    { apply NoDup_remove_2 in Hnd. rewrite app_nil_r in Hnd. exact Hnd. }
    assert (Hlk : lookup k (shape ++ [(key, e)])
                  = match lookup k shape with
                    | Some e' => Some e'
                    | None => if String.eqb k key then Some e else None
                    end).
    { clear. induction shape as [| [k0 e0] shape IHs]; cbn [lookup app].
      - reflexivity.
      - destruct (String.eqb k k0); [reflexivity | exact IHs]. }
    rewrite Hlk in Hl. rewrite parse_fields_snoc.
    unfold handlePropertyResult. cbn [p_value].
    destruct (String.eqb_spec k key) as [-> | Hne].
    + rewrite (lookup_not_in key shape Hfresh) in Hl. injection Hl as <-.
      destruct (is_undefined (p_value (run e (get key input)))); cbn [negb orb].
      * destruct (has key input) eqn:Hh.
        -- rewrite has_set, String.eqb_refl by apply parse_fields_object. reflexivity.
        -- apply parse_fields_has. exact Hfresh.
      * rewrite has_set, String.eqb_refl by apply parse_fields_object. reflexivity.
    + destruct (lookup k shape) as [e' |] eqn:Hls; [| discriminate Hl].
      injection Hl as <-.
      assert (Hneq : String.eqb k key = false)
        by (destruct (String.eqb_spec k key); [congruence | reflexivity]).
      destruct (is_undefined (p_value (run e (get key input))));
        [destruct (has key input) |];
        rewrite ?has_set by apply parse_fields_object; rewrite ?Hneq; cbn [orb];
        apply IH; auto.
Qed.

(** X7.  In the data of a create-match body a score the body does not
    bind stays unbound, and a score the body defines is the number it
    converts to. *)
Theorem createMatch_optional_scores :
  forall (datetime : string -> bool) (Date_parse : value -> number)
         (fields : list (string * value)) (data : value) (key : string),
  let body := VObj fields in
  safeParse (createMatchSchema datetime Date_parse) body = Success data ->
  key = "homeScore" \/ key = "awayScore" ->
  (lookup key fields = None -> has key data = false)
  /\ (get key body <> VUndefined ->
      get key data = VNum (ToNumber (get key body))).
Proof.
  intros datetime Date_parse fields data key body Hparse Hkey.
  assert (Hsucc : success (safeParse (createMatchSchema datetime Date_parse) body) = true)
    by (rewrite Hparse; reflexivity).
  apply safeParse_success in Hsucc.
  rewrite (safeParse_data _ _ Hsucc) in Hparse. injection Hparse as <-.
  unfold body. rewrite createMatch_data.
  split.
  - intros Hnone.
    assert (Hg : get key (VObj fields) = VUndefined) by (cbn; rewrite Hnone; reflexivity).
    assert (Hh : has key (VObj fields) = false) by (cbn; rewrite Hnone; reflexivity).
    destruct Hkey as [-> | ->];
      erewrite parse_fields_has_key;
      try apply createMatchFields_NoDup; try reflexivity;
      rewrite Hg, Hh; reflexivity.
  - intros Hdef. rewrite parse_fields_get by apply createMatchFields_NoDup.
    destruct Hkey as [-> | ->];
      cbn [lookup createMatchFields String.eqb Ascii.eqb Bool.eqb];
      rewrite optional_score_value, is_undefined_false by exact Hdef; reflexivity.
Qed.

(** *** Blank strings *)

Lemma trim_start_blank l : forallb is_StrWhiteSpaceChar l = true -> trim_start l = [].
Proof.
  induction l as [| c l IH]; cbn [forallb trim_start]; [reflexivity |].
  destruct (is_StrWhiteSpaceChar c); [exact IH | discriminate].
Qed.

Lemma ToNumber_blank s : blank s = true -> ToNumber (VStr s) = Fin 0.
Proof.
  intros H. cbn [ToNumber]. unfold StringToNumber, trim.
  rewrite (trim_start_blank _ H). reflexivity.
Qed.

(** X8.  A string of white space only, the empty string included,
    converts to 0: as a [limit] or an [id] it is rejected with
    [too_small 0] and nothing else, as a pair of scores it is accepted
    as 0 and 0. *)
Theorem blank_string_is_zero : forall (fields : list (string * value)) (s : string),
  blank s = true ->
  (get "limit" (VObj fields) = VStr s ->
   safeParse listMatchesQuerySchema (VObj fields)
   = Failure [ mk_issue (too_small 0) ["limit"] None ])
  /\ (get "id" (VObj fields) = VStr s ->
      safeParse matchIdParamSchema (VObj fields)
      = Failure [ mk_issue (too_small 0) ["id"] None ])
  /\ (get "homeScore" (VObj fields) = VStr s ->
      get "awayScore" (VObj fields) = VStr s ->
      safeParse updateScoreSchema (VObj fields)
      = Success (VObj [ ("homeScore", VNum (Fin 0)); ("awayScore", VNum (Fin 0)) ])).
Proof.
  intros fields s Hs. pose proof (ToNumber_blank s Hs) as Hz. repeat split.
  - intros Hl. rewrite listMatches_defined by (rewrite Hl; discriminate).
    rewrite Hl. unfold_number_run. rewrite Hz. reflexivity.
  - intros Hi. rewrite matchIdParam_parse. rewrite Hi.
    unfold_number_run. rewrite Hz. reflexivity.
  - intros Hh Ha. rewrite updateScore_parse. cbv zeta. unfold score_issues.
    rewrite Hh, Ha. unfold_number_run. rewrite Hz. reflexivity.
Qed.

(** *** Messages on the names of createMatch *)


Lemma filter_none {A : Type} (f : A -> bool) l :
  (forall x, In x l -> f x = false) -> filter f l = [].
Proof.
  induction l as [| a l IH]; cbn [filter]; intros H; [reflexivity |].
  rewrite (H a) by (left; reflexivity). apply IH. intros x Hx. apply H. right. exact Hx.
Qed.

Lemma filter_all {A : Type} (f : A -> bool) l :
  (forall x, In x l -> f x = true) -> filter f l = l.
Proof.
  induction l as [| a l IH]; cbn [filter]; intros H; [reflexivity |].
  rewrite (H a) by (left; reflexivity). f_equal. apply IH.
  intros x Hx. apply H. right. exact Hx.
Qed.




(** *** The status constants *)

(** X10.  The values of [MATCH_STATUS] are exactly the texts the
    [status] column of [matches] takes. *)
Theorem MATCH_STATUS_matches_enum : forall s : string,
  In s (map snd MATCH_STATUS)
  <-> (forall col, lookup "status" (columns matches) = Some col ->
                   check_column col (Text s) = None).
Proof.
  intros s. split.
  - intros H col Hcol. apply (status_column_values col (Text s) Hcol).
    cbn in H. destruct H as [<- | [<- | [<- | []]]]; auto.
  - intros H.
    destruct (lookup "status" (columns matches)) as [col |] eqn:E; [| discriminate E].
    specialize (H col eq_refl).
    apply (status_column_values col (Text s) E) in H.
    cbn. destruct H as [[= ->] | [[= ->] | [= ->]]]; auto.
Qed.

Lemma lookup_in_nodup {A : Type} key (c : A) (cols : list (string * A)) :
  NoDup (map fst cols) -> In (key, c) cols -> lookup key cols = Some c.
Proof.
  induction cols as [| [k0 c0] cols IH]; cbn [In lookup map fst]; [tauto |].
  intros Hnd [[= -> ->] | Hin].
  - rewrite String.eqb_refl. reflexivity.
  - inversion Hnd as [| ? ? Hnotin Hnd']; subst.
    destruct (String.eqb_spec key k0) as [-> | _]; [| auto].
    exfalso. apply Hnotin. apply (in_map fst) in Hin. exact Hin.
Qed.

Lemma field_build_row t vals now nextval key c :
  NoDup (map fst (columns t)) -> In (key, c) (columns t) ->
  field key (build_row t vals now nextval)
  = column_value c (supplied key vals) now nextval.
Proof.
  intros Hnd Hin. unfold field, build_row.
  assert (H : forall cols, lookup key cols = Some c ->
            lookup key (map (fun '(k, c0) =>
                               (k, column_value c0 (supplied k vals) now nextval)) cols)
            = Some (column_value c (supplied key vals) now nextval)).
  { induction cols as [| [k0 c0] cols IH]; cbn [lookup map]; [discriminate |].
    destruct (String.eqb_spec key k0) as [-> | _]; [intros [= ->]; reflexivity | exact IH]. }
  rewrite (H _ (lookup_in_nodup key c _ Hnd Hin)). reflexivity.
Qed.

(** X11.  The columns that are NOT NULL and have no default are [sport],
    [homeTeam], [awayTeam] and [startTime] in [matches] and [matchId] in
    [commentary]; an INSERT that leaves one of them out, or gives it as
    NULL, fails. *)
Theorem required_columns_enforced :
  required_columns matches = [ "sport"; "homeTeam"; "awayTeam"; "startTime" ]
  /\ required_columns commentary = [ "matchId" ]
  /\ (forall (t : PgTable) (key : string) (vals : insertValues)
             (now nextval : Z) (rows : list row) (foreign : tables),
        NoDup (map fst (columns t)) ->
        In key (required_columns t) ->
        supplied key vals = None \/ supplied key vals = Some Null ->
        exists e, insert_row t vals now nextval rows foreign = inl e).
Proof.
  split; [reflexivity |]. split; [reflexivity |].
  intros t key vals now nextval rows foreign Hnd Hkey Hsup.
  unfold required_columns in Hkey. apply in_map_iff in Hkey.
  destruct Hkey as [[k c] [Hk Hin]]. cbn [fst] in Hk. subst k.
  apply filter_In in Hin. destruct Hin as [Hin Hreq]. cbn [snd] in Hreq.
  unfold required in Hreq. apply andb_true_iff in Hreq. destruct Hreq as [Hnn Hdef].
  unfold insert_row.
  destruct (check_row (columns t) (build_row t vals now nextval)) as [e |] eqn:E;
    [eauto |].
  exfalso. pose proof (check_row_column _ _ key c E Hin) as Hc.
  rewrite (field_build_row t vals now nextval key c Hnd Hin) in Hc.
  assert (Hv : column_value c (supplied key vals) now nextval = Null).
  { unfold column_value. destruct Hsup as [-> | ->]; [| reflexivity].
    destruct (default_ c); try discriminate Hdef. reflexivity. }
  rewrite Hv in Hc. unfold check_column in Hc. rewrite Hnn in Hc. discriminate Hc.
Qed.

Lemma required_columns_enforced_witness :
  exists e,
    insert_row matches
               [ ("homeTeam", Some (Text "Team A")); ("awayTeam", Some (Text "Team B"));
                 ("startTime", Some (Timestamp 1772377200000)) ]
               1772300000000 1 [] (table_rows empty_database) = inl e.
Proof.
  apply (proj2 (proj2 required_columns_enforced) matches "sport").
  - cbn. repeat constructor; cbn; intuition discriminate.
  - cbn. auto.
  - left. reflexivity.
Defined.

(** X12.  An INSERT into [commentary] that gives the match id alone
    yields, when a match with that id is stored, a row with the next id,
    that match id, NULL in every other column and the current time in
    [createdAt]; when no such match is stored it fails on the foreign
    key. *)
Theorem commentary_minimal_insert :
  forall (matchId now nextval : Z) (rows : list row) (foreign : tables),
  int4_min <= matchId <= int4_max ->
  1 <= nextval <= int4_max ->
  exists_with "id" (Int nextval) rows = false ->
  insert_row commentary [ ("matchId", Some (Int matchId)) ] now nextval rows foreign
  = if exists_with "id" (Int matchId) (foreign "matches")
    then inr [ ("id", Int nextval); ("matchId", Int matchId); ("minute", Null);
               ("sequence", Null); ("period", Null); ("eventType", Null);
               ("actor", Null); ("team", Null); ("message", Null);
               ("metadata", Null); ("tags", Null); ("createdAt", Timestamp now) ]
    else inl (foreign_key_violation "match_id").
Proof.
  intros matchId now nextval rows foreign Hm Hs Hfresh.
  unfold insert_row.
  set (r := build_row commentary [ ("matchId", Some (Int matchId)) ] now nextval).
  assert (Hc : check_row (columns commentary) r = None).
  { unfold r. cbn -[int4_min int4_max Z.leb]. unfold int4_max, int4_min in *.
    destruct (Z.leb_spec (- 2 ^ 31) nextval); [| lia].
    destruct (Z.leb_spec nextval (2 ^ 31 - 1)); [| lia].
    destruct (Z.leb_spec (- 2 ^ 31) matchId); [| lia].
    destruct (Z.leb_spec matchId (2 ^ 31 - 1)); [| lia].
    reflexivity. }
  assert (Hu : check_unique commentary r rows = None).
  { unfold check_unique.
    cbn [primary_keys commentary columns filter map fst snd primary
           primaryKey serial notNull default defaultNow Pg.text Pg.array Pg.jsonb
           Pg.timestamp Pg.integer plain].
    assert (Hid : field "id" r = Int nextval) by reflexivity.
    rewrite Hid, Hfresh. reflexivity. }
  rewrite Hc, Hu, (check_foreign_commentary r matchId foreign) by reflexivity.
  destruct (exists_with "id" (Int matchId) (foreign "matches")); reflexivity.
Qed.

Lemma commentary_minimal_insert_witness :
  insert_row commentary [ ("matchId", Some (Int 1)) ] 1772380000000 1 []
             (table_rows sample_database)
  = inr [ ("id", Int 1); ("matchId", Int 1); ("minute", Null);
          ("sequence", Null); ("period", Null); ("eventType", Null);
          ("actor", Null); ("team", Null); ("message", Null);
          ("metadata", Null); ("tags", Null); ("createdAt", Timestamp 1772380000000) ].
Proof.
  apply (commentary_minimal_insert 1 1772380000000 1 [] (table_rows sample_database));
    try reflexivity; unfold int4_min, int4_max; lia.
Defined.

(** *** Insert, select and delete by id *)

Lemma insert_row_checked t vals now nextval rows foreign r :
  insert_row t vals now nextval rows foreign = inr r ->
  check_row (columns t) r = None /\ check_unique t r rows = None.
Proof.
  unfold insert_row.
  destruct (check_row _ _) eqn:Hc; [discriminate |].
  destruct (check_unique _ _ _) eqn:Hu; [discriminate |].
  destruct (check_foreign _ _ _); [discriminate |].
  intros [= <-]. auto.
Qed.

(** The id of an inserted row is an integer no other row of the table
    carries. *)
Lemma inserted_id t vals now nextval rows foreign r :
  t = matches \/ t = commentary ->
  insert_row t vals now nextval rows foreign = inr r ->
  (exists id, field "id" r = Int id)
  /\ forall r', In r' rows -> Drizzle.eq "id" (field "id" r) r' = false.
Proof.
  intros Ht H. apply insert_row_checked in H. destruct H as [Hc Hu].
  assert (Hid : exists id, field "id" r = Int id).
  { assert (Hcol : check_column (serial "id" |> primaryKey) (field "id" r) = None).
    { destruct Ht as [-> | ->]; apply (check_row_column _ _ _ _ Hc); left; reflexivity. }
    unfold check_column in Hcol. cbn in Hcol.
    destruct (field "id" r); try discriminate Hcol. eauto. }
  split; [exact Hid |].
  assert (Hex : exists_with "id" (field "id" r) rows = false).
  { unfold check_unique in Hu.
    destruct Ht as [-> | ->];
      cbn [primary_keys matches commentary columns filter map fst snd primary
             primaryKey serial notNull default defaultNow Pg.text Pg.array Pg.jsonb
             Pg.timestamp Pg.integer enumColumn plain] in Hu;
      destruct (exists_with "id" (field "id" r) rows); congruence. }
  intros r' Hin. unfold Drizzle.eq.
  destruct (sqlvalue_eqb (field "id" r') (field "id" r)) eqn:E; [| reflexivity].
  unfold exists_with in Hex.
  assert (Ht' : existsb (fun r0 => sqlvalue_eqb (field "id" r0) (field "id" r)) rows = true)
    by (apply existsb_exists; eauto).
  congruence.
Qed.

(** X13.  After an INSERT into [matches] or [commentary], selecting by
    the id of the new row returns that row and no other. *)
Theorem insert_then_select_by_id :
  forall (t : PgTable) (vals : insertValues) (now nextval : Z) (rows : list row)
         (foreign : tables) (r : row),
  t = matches \/ t = commentary ->
  insert_row t vals now nextval rows foreign = inr r ->
  Drizzle.select_where (Drizzle.eq "id" (field "id" r)) (rows ++ [r]) = [r].
Proof.
  intros t vals now nextval rows foreign r Ht H.
  destruct (inserted_id t vals now nextval rows foreign r Ht H) as [[id Hid] Hother].
  unfold Drizzle.select_where. rewrite filter_app.
  rewrite filter_none by exact Hother.
  cbn [filter app]. unfold Drizzle.eq at 1. rewrite Hid. cbn. rewrite Z.eqb_refl.
  reflexivity.
Qed.

(** X14.  Deleting by id the row an INSERT has just added leaves the
    table as it was before the INSERT, and a select by that id then
    finds nothing. *)
Theorem insert_then_delete_by_id :
  forall (t : PgTable) (vals : insertValues) (now nextval : Z) (rows : list row)
         (foreign : tables) (r : row),
  t = matches \/ t = commentary ->
  insert_row t vals now nextval rows foreign = inr r ->
  let rows' := Drizzle.delete_where (Drizzle.eq "id" (field "id" r)) (rows ++ [r]) in
  rows' = rows
  /\ Drizzle.select_where (Drizzle.eq "id" (field "id" r)) rows' = [].
Proof.
  intros t vals now nextval rows foreign r Ht H rows'.
  destruct (inserted_id t vals now nextval rows foreign r Ht H) as [[id Hid] Hother].
  assert (Hrows : rows' = rows).
  { unfold rows', Drizzle.delete_where. rewrite filter_app.
    rewrite filter_all by (intros x Hx; rewrite (Hother x Hx); reflexivity).
    cbn [filter]. unfold Drizzle.eq at 1. rewrite Hid. cbn. rewrite Z.eqb_refl.
    cbn. apply app_nil_r. }
  split; [exact Hrows |].
  rewrite Hrows. unfold Drizzle.select_where. apply filter_none. exact Hother.
Qed.

Lemma unknown_keys_stripped_witness :
  get "status" (VObj blank_names) = VUndefined.
Proof.
  apply (proj2 (proj2 (proj2 (unknown_keys_stripped
                                Reference.datetime Reference.Date_parse
                                (VObj (("status", VStr "finished") :: blank_names))
                                (VObj blank_names) "status")))).
  - vm_compute. reflexivity.
  - cbn. intuition discriminate.
Defined.

Lemma validation_idempotent_witness :
  safeParse updateScoreSchema
            (VObj [("homeScore", VNum (num 3)); ("awayScore", VNum (num 1))])
  = Success (VObj [("homeScore", VNum (num 3)); ("awayScore", VNum (num 1))]).
Proof.
  apply (proj1 (proj2 (proj2 (validation_idempotent
                                Reference.datetime Reference.Date_parse
                                (VObj [("homeScore", VStr "3"); ("awayScore", VBool true)])
                                _)))).
  reflexivity.
Defined.

Lemma listMatches_accepts_exactly_witness :
  success (safeParse listMatchesQuerySchema (VObj [("limit", VStr "7")])) = true.
Proof.
  apply (proj2 (listMatches_accepts_exactly (VObj [("limit", VStr "7")]))).
  eexists. split; [reflexivity |]. right. exists 7. split; [reflexivity | lia].
Defined.

Lemma createMatch_accepts_exactly_witness :
  success (safeParse (createMatchSchema Reference.datetime Reference.Date_parse)
                     (VObj blank_names)) = true.
Proof.
  apply (proj2 (createMatch_accepts_exactly Reference.datetime Reference.Date_parse
                  (VObj blank_names))).
  eexists. split; [reflexivity |]. split.
  - intros key Hkey. cbn in Hkey.
    repeat (destruct Hkey as [<- | Hkey]; [vm_compute; reflexivity |]). destruct Hkey.
  - vm_compute. repeat split; reflexivity.
Defined.

Lemma createMatch_optional_scores_witness :
  has "homeScore" (VObj blank_names) = false.
Proof.
  apply (proj1 (createMatch_optional_scores Reference.datetime Reference.Date_parse
                  blank_names (VObj blank_names) "homeScore"
                  ltac:(vm_compute; reflexivity) (or_introl eq_refl))).
  reflexivity.
Defined.

Lemma blank_string_is_zero_witness :
  safeParse listMatchesQuerySchema (VObj [("limit", VStr "")])
  = Failure [ mk_issue (too_small 0) ["limit"] None ].
Proof.
  apply (proj1 (blank_string_is_zero [("limit", VStr "")] "" eq_refl)).
  reflexivity.
Defined.


Lemma MATCH_STATUS_matches_enum_witness :
  check_column (enumColumn matchStatusEnum "status" |> default (Text "scheduled")
                                                     |> notNull)
               (Text "live") = None.
Proof.
  apply (proj1 (MATCH_STATUS_matches_enum "live")).
  - cbn. auto.
  - reflexivity.
Defined.

Lemma insert_then_select_by_id_witness :
  Drizzle.select_where (Drizzle.eq "id" (Int 2))
                       (matches_rows sample_database ++ [second_match])
  = [second_match].
Proof.
  apply (insert_then_select_by_id matches second_match_values 1772380000000 2
           (matches_rows sample_database) (table_rows sample_database) second_match).
  - left. reflexivity.
  - vm_compute. reflexivity.
Defined.

Lemma insert_then_delete_by_id_witness :
  Drizzle.delete_where (Drizzle.eq "id" (Int 2))
                       (matches_rows sample_database ++ [second_match])
  = matches_rows sample_database
  /\ Drizzle.select_where
       (Drizzle.eq "id" (Int 2))
       (Drizzle.delete_where (Drizzle.eq "id" (Int 2))
                             (matches_rows sample_database ++ [second_match]))
     = [].
Proof.
  apply (insert_then_delete_by_id matches second_match_values 1772380000000 2
           (matches_rows sample_database) (table_rows sample_database) second_match).
  - left. reflexivity.
  - vm_compute. reflexivity.
Defined.
